(** * Verification of the manifesto build scripts

    Two Node.js scripts are embedded here:
    - [build-manifesto.js]: Markdown source -> HTML -> spliced into
      [manifesto/index.html];
    - the DOCX script: DOCX source -> HTML (mammoth) -> normalised
      (images stripped, banner prepended, footnotes wrapped) -> spliced into
      [manifesto/index.html], followed by the removal of a citations block.

    JavaScript strings are sequences of UTF-16 code units; a string is a
    [list N] of code units.  Text files are taken as the strings that
    [readFileSync(_, 'utf8')] decodes them to. *)

From Stdlib Require Import Ascii String.
From Stdlib Require Import List NArith ZArith Bool Lia.
Import ListNotations.

(** ** Strings *)

Module JS.

Definition char := N.
Definition str := list char.

(** An ASCII literal of the source, as code units. *)
Fixpoint lit (s : string) : str :=
  match s with
  | EmptyString => []
  | String a s' => N_of_ascii a :: lit s'
  end.

Definition char_eqb (a b : char) : bool := N.eqb a b.

Fixpoint str_eqb (a b : str) : bool :=
  match a, b with
  | [], [] => true
  | x :: a', y :: b' => char_eqb x y && str_eqb a' b'
  | _, _ => false
  end.

(** [WhiteSpace] and [LineTerminator] of ECMAScript: the code units that
    [\s] matches and that [String.prototype.trim] strips. *)
Definition isWhiteSpace (c : char) : bool :=
  ((9 <=? c) && (c <=? 13)            (* TAB LF VT FF CR *)
   || (c =? 32)                        (* SP *)
   || (c =? 160)                       (* NBSP *)
   || (c =? 5760)                      (* U+1680 *)
   || ((8192 <=? c) && (c <=? 8202))   (* U+2000 .. U+200A *)
   || (c =? 8232) || (c =? 8233)       (* LS PS *)
   || (c =? 8239) || (c =? 8287)       (* U+202F U+205F *)
   || (c =? 12288)                     (* U+3000 *)
   || (c =? 65279))%N.                 (* U+FEFF *)

(** [s.startsWith(t)] *)
Fixpoint startsWith (s t : str) {struct t} : bool :=
  match t with
  | [] => true
  | y :: t' =>
      match s with
      | [] => false
      | x :: s' => char_eqb x y && startsWith s' t'
      end
  end.

(** [s.endsWith(t)] *)
Definition endsWith (s t : str) : bool :=
  (length t <=? length s)%nat && str_eqb (skipn (length s - length t) s) t.

(** [s.includes(t)] *)
Fixpoint includes (s t : str) : bool :=
  startsWith s t ||
  match s with
  | [] => false
  | _ :: s' => includes s' t
  end.

(** [s.indexOf(t)], with [-1] for no occurrence. *)
Fixpoint indexOf_from (i : Z) (s t : str) : Z :=
  if startsWith s t then i
  else match s with
       | [] => (-1)%Z
       | _ :: s' => indexOf_from (i + 1) s' t
       end.

Definition indexOf (s t : str) : Z := indexOf_from 0 s t.

(** [s.lastIndexOf(t)], with [-1] for no occurrence: the occurrence found
    furthest to the right wins. *)
Fixpoint lastIndexOf_from (i : Z) (s t : str) : Z :=
  match s with
  | [] => if startsWith [] t then i else (-1)%Z
  | _ :: s' =>
      let later := lastIndexOf_from (i + 1) s' t in
      if (later =? -1)%Z
      then (if startsWith s t then i else (-1)%Z)
      else later
  end.

Definition lastIndexOf (s t : str) : Z := lastIndexOf_from 0 s t.

(** [s.substring(start)] and [s.substring(start, end)]: both indices are
    clamped to [0 .. length] and swapped when out of order. *)
Definition clamp (s : str) (i : Z) : nat :=
  Nat.min (Z.to_nat i) (length s).

Definition substring (s : str) (start : Z) (stop : option Z) : str :=
  let a := clamp s start in
  let b := match stop with
           | None => length s
           | Some e => clamp s e
           end in
  let lo := Nat.min a b in
  let hi := Nat.max a b in
  firstn (hi - lo) (skipn lo s).

Fixpoint trimStart (s : str) : str :=
  match s with
  | [] => []
  | c :: s' => if isWhiteSpace c then trimStart s' else s
  end.

Definition trimEnd (s : str) : str := rev (trimStart (rev s)).

(** [s.trim()] *)
Definition trim (s : str) : str := trimEnd (trimStart s).

(** *** Replacement templates

    [GetSubstitution] of ECMAScript for a pattern without capture groups:
    [$$] is a dollar sign, [$&] the matched text, [$`] the text before the
    match and [$'] the text after it.  With no capture group, [$1] .. [$99]
    and [$<] stand for themselves, like a dollar sign before any other
    code unit. *)
Fixpoint getSubstitution (matched before after template : str) : str :=
  match template with
  | [] => []
  | c :: rest =>
      if (c =? 36)%N then
        match rest with
        | [] => [c]
        | d :: rest' =>
            if (d =? 36)%N then 36%N :: getSubstitution matched before after rest'
            else if (d =? 96)%N then before ++ getSubstitution matched before after rest'
            else if (d =? 38)%N then matched ++ getSubstitution matched before after rest'
            else if (d =? 39)%N then after ++ getSubstitution matched before after rest'
            else c :: getSubstitution matched before after rest
        end
      else c :: getSubstitution matched before after rest
  end.

(** [s.replace(pattern, template)] with a string pattern: the first
    occurrence only. *)
Definition replaceString (s pattern template : str) : str :=
  let i := indexOf s pattern in
  if (i =? -1)%Z then s
  else
    let before := firstn (Z.to_nat i) s in
    let after := skipn (Z.to_nat i + length pattern) s in
    before ++ getSubstitution pattern before after template ++ after.

End JS.

(** ** Regular expressions

    The fragment of ECMAScript patterns the scripts use: a sequence of
    literal code units, starred character classes (greedy [*] or lazy [*?])
    and the end anchor [$] (no [m] flag: end of input).  No pattern of the
    scripts has a capture group, an alternation or a look-around. *)

Module Regex.
Import JS.

Inductive cls :=
| AnyChar                 (* [\s\S] *)
| NotChar (c : char)      (* [^c] *)
| Space.                  (* \s *)

Definition cls_mem (k : cls) (c : char) : bool :=
  match k with
  | AnyChar => true
  | NotChar d => negb (char_eqb c d)
  | Space => isWhiteSpace c
  end.

Inductive item :=
| Lit (c : char)
| Star (k : cls)          (* k*  : longest first *)
| StarLazy (k : cls)      (* k*? : shortest first *)
| EndOfInput.             (* $ *)

Definition regex := list item.

Definition lits (s : string) : regex := map Lit (lit s).

(** Backtracking: [greedyStar] tries the continuation after the longest run
    first, [lazyStar] after the shortest; both give the matched text. *)
Fixpoint greedyStar (k : cls) (cont : str -> option str) (s : str) : option str :=
  match s with
  | [] => cont []
  | c :: s' =>
      if cls_mem k c then
        match greedyStar k cont s' with
        | Some m => Some (c :: m)
        | None => cont s
        end
      else cont s
  end.

Fixpoint lazyStar (k : cls) (cont : str -> option str) (s : str) : option str :=
  match cont s with
  | Some m => Some m
  | None =>
      match s with
      | [] => None
      | c :: s' =>
          if cls_mem k c then option_map (cons c) (lazyStar k cont s') else None
      end
  end.

(** The text that [r] matches at the start of [s], if any. *)
Fixpoint matchHere (r : regex) (s : str) : option str :=
  match r with
  | [] => Some []
  | Lit c :: r' =>
      match s with
      | [] => None
      | x :: s' =>
          if char_eqb x c then option_map (cons x) (matchHere r' s') else None
      end
  | Star k :: r' => greedyStar k (matchHere r') s
  | StarLazy k :: r' => lazyStar k (matchHere r') s
  | EndOfInput :: r' =>
      match s with
      | [] => matchHere r' []
      | _ :: _ => None
      end
  end.

(** [RegExp.prototype.exec] from index 0: the leftmost match, as
    (text before, matched text, text after). *)
Fixpoint exec (r : regex) (s : str) : option (str * str * str) :=
  match matchHere r s with
  | Some m => Some ([], m, skipn (length m) s)
  | None =>
      match s with
      | [] => None
      | c :: s' =>
          match exec r s' with
          | Some (b, m, a) => Some (c :: b, m, a)
          | None => None
          end
      end
  end.

(** [r.test(s)] *)
Definition test (r : regex) (s : str) : bool :=
  match exec r s with Some _ => true | None => false end.

(** [s.match(r)] for a pattern without [g]: element 0 of the result. *)
Definition match0 (r : regex) (s : str) : option str :=
  match exec r s with Some (_, m, _) => Some m | None => None end.

(** [s.replace(r, template)] for a pattern without [g]: the first match
    only. *)
Definition replace (s : str) (r : regex) (template : str) : str :=
  match exec r s with
  | None => s
  | Some (b, m, a) => b ++ getSubstitution m b a template ++ a
  end.

(** [s.replace(r, template)] for a pattern with [g]: [exec] is repeated
    from the end of the previous match; an empty match advances by one code
    unit.  [seen] is the text of the subject before [s]. *)
Fixpoint replaceAll_loop (fuel : nat) (seen s : str) (r : regex) (template : str) : str :=
  match fuel with
  | O => s
  | S fuel' =>
      match exec r s with
      | None => s
      | Some (b, m, a) =>
          b ++ getSubstitution m (seen ++ b) a template ++
          match m with
          | _ :: _ => replaceAll_loop fuel' (seen ++ b ++ m) a r template
          | [] =>
              match a with
              | [] => []
              | c :: a' => c :: replaceAll_loop fuel' (seen ++ b ++ [c]) a' r template
              end
          end
      end
  end.

Definition replaceAll (s : str) (r : regex) (template : str) : str :=
  replaceAll_loop (S (length s)) [] s r template.

(** [s.match(r)] for a pattern with [g]: all the matches, left to right. *)
Fixpoint matchAll_loop (fuel : nat) (s : str) (r : regex) : list str :=
  match fuel with
  | O => []
  | S fuel' =>
      match exec r s with
      | None => []
      | Some (_, m, a) =>
          m ::
          match m with
          | _ :: _ => matchAll_loop fuel' a r
          | [] =>
              match a with
              | [] => []
              | _ :: a' => matchAll_loop fuel' a' r
              end
          end
      end
  end.

Definition matchAll (s : str) (r : regex) : list str :=
  matchAll_loop (S (length s)) s r.

End Regex.

(** ** The Node.js runtime the scripts run in

    A script is a computation over the file system and the console.  It
    returns, throws, or ends the process through [process.exit]; a [try]
    block (and a promise's [.catch]) intercepts a throw and nothing else. *)

Module Node.
Import JS.

Inductive Path := SourcePath | IndexPath.

Inductive Error :=
| ENOENT (p : Path)            (* no such file *)
| EACCES (p : Path)            (* file not writable *)
| LibraryError (what : str).   (* thrown by marked or mammoth *)

(** What the console prints: the fixed text of the source, then the value
    printed after it, if any. *)
Inductive Message :=
| Text (t : str)
| TextAndPath (t : str) (p : Path)
| TextAndError (t : str) (e : Error)
| TextAndList (t : str) (l : list str).

Inductive Event :=
| ConsoleLog (m : Message)
| ConsoleError (m : Message)
| ConversionStarted
| FileWritten (p : Path) (content : str).

Record FileSystem := mkFS {
  file : Path -> option str;
  writable : Path -> bool
}.

Record World := mkWorld {
  fsys : FileSystem;
  events : list Event           (* oldest first *)
}.

Inductive Res (A : Type) :=
| Val (a : A)
| Thrown (e : Error)
| Exited (code : Z).
Arguments Val {A} a.
Arguments Thrown {A} e.
Arguments Exited {A} code.

Definition Proc (A : Type) := World -> Res A * World.

Definition ret {A} (a : A) : Proc A := fun w => (Val a, w).

Definition bind {A B} (p : Proc A) (f : A -> Proc B) : Proc B :=
  fun w =>
    match p w with
    | (Val a, w') => f a w'
    | (Thrown e, w') => (Thrown e, w')
    | (Exited c, w') => (Exited c, w')
    end.

Declare Scope proc_scope.
Delimit Scope proc_scope with proc.
Notation "x <- p ;; q" := (bind p (fun x => q))
  (at level 61, p at next level, right associativity) : proc_scope.
Notation "p ;; q" := (bind p (fun _ => q))
  (at level 61, right associativity) : proc_scope.

Definition throw {A} (e : Error) : Proc A := fun w => (Thrown e, w).

(** [process.exit(code)]: nothing after it runs, no handler sees it. *)
Definition process_exit {A} (code : Z) : Proc A := fun w => (Exited code, w).

(** [try { body } catch (err) { handler }], also [promise.catch(handler)]. *)
Definition tryCatch {A} (body : Proc A) (handler : Error -> Proc A) : Proc A :=
  fun w =>
    match body w with
    | (Thrown e, w') => handler e w'
    | other => other
    end.

Definition emit (e : Event) : Proc unit :=
  fun w => (Val tt, mkWorld (fsys w) (events w ++ [e])).

Definition console_log (m : Message) : Proc unit := emit (ConsoleLog m).
Definition console_error (m : Message) : Proc unit := emit (ConsoleError m).

Definition existsSync (p : Path) : Proc bool :=
  fun w => (Val (match file (fsys w) p with Some _ => true | None => false end), w).

Definition readFileSync (p : Path) : Proc str :=
  fun w =>
    match file (fsys w) p with
    | Some content => (Val content, w)
    | None => (Thrown (ENOENT p), w)
    end.

Definition path_eqb (p q : Path) : bool :=
  match p, q with
  | SourcePath, SourcePath | IndexPath, IndexPath => true
  | _, _ => false
  end.

Definition writeFileSync (p : Path) (content : str) : Proc unit :=
  fun w =>
    if writable (fsys w) p then
      (Val tt,
       mkWorld
         (mkFS (fun q => if path_eqb q p then Some content else file (fsys w) q)
               (writable (fsys w)))
         (events w ++ [FileWritten p content]))
    else (Thrown (EACCES p), w).

(** The result of a library call, or of a promise once settled. *)
Inductive Exn (A : Type) :=
| Ok (a : A)
| Raise (e : Error).
Arguments Ok {A} a.
Arguments Raise {A} e.

Definition settle {A} (x : Exn A) : Proc A :=
  fun w => match x with Ok a => (Val a, w) | Raise e => (Thrown e, w) end.

(** What is left when the script has run: the files, what was printed and
    done, and the exit status (0 after a normal end, 1 after an exception
    nobody caught). *)
Record Outcome := mkOutcome {
  files_after : FileSystem;
  trace : list Event;
  exitCode : Z
}.

Definition run {A} (p : Proc A) (fs : FileSystem) : Outcome :=
  match p (mkWorld fs []) with
  | (Val _, w) => mkOutcome (fsys w) (events w) 0
  | (Thrown _, w) => mkOutcome (fsys w) (events w) 1
  | (Exited c, w) => mkOutcome (fsys w) (events w) c
  end.

(** The template was written during the run. *)
Definition wrote (p : Path) (o : Outcome) : bool :=
  existsb (fun e => match e with FileWritten q _ => path_eqb q p | _ => false end)
          (trace o).

Definition printedError (m : Message) (o : Outcome) : Prop :=
  In (ConsoleError m) (trace o).

End Node.

(** ** Text shared by the two scripts *)

Module Common.
Import JS Regex.

Definition DQ : str := [34%N].   (* the double quote *)
Definition NL : str := [10%N].   (* \n *)

(** [/<article>[\s\S]*?<\/article>/] *)
Definition articleRegex : regex :=
  lits "<article>" ++ [StarLazy AnyChar] ++ lits "</article>".

(** [`<article>\n${htmlContent}\n</article>`] *)
Definition newArticle (htmlContent : str) : str :=
  lit "<article>" ++ NL ++ htmlContent ++ NL ++ lit "</article>".

End Common.

(** ** build-manifesto.js *)

Module BuildManifesto.
Import JS Regex Node Common.
Local Open Scope proc_scope.

Section Script.

(** [marked.parse], the Markdown renderer: an external library. *)
Variable marked_parse : str -> Exn str.

(** The body of the script; the dynamic [import('marked')] before the
    [try] block is taken to succeed. *)
Definition main : Proc unit :=
  tryCatch
    (markdown <- readFileSync SourcePath ;;
     emit ConversionStarted ;;
     htmlContent <- settle (marked_parse markdown) ;;
     indexHtml <- readFileSync IndexPath ;;
     indexHtml <-
       (if test articleRegex indexHtml
        then ret (replace indexHtml articleRegex (newArticle htmlContent))
        else
          console_error (Text (lit "Could not find <article> tag in index.html")) ;;
          process_exit 1) ;;
     writeFileSync IndexPath indexHtml ;;
     console_log
       (Text (lit "Successfully updated manifesto/index.html with content from source.md")))
    (fun err => console_error (TextAndError (lit "Error processing markdown:") err)).

End Script.

End BuildManifesto.

(** ** The DOCX script *)

Module BuildFromDocx.
Import JS Regex Node Common.
Local Open Scope proc_scope.

(** *** Options given to mammoth *)

(** The attributes an image handler gives to the [<img>] element. *)
Record ImageAttributes := mkAttrs {
  src : str;
  class : str
}.

(** An image embedded in the document: [read(encoding)] is a promise of
    its content. *)
Record EmbeddedImage := mkImage {
  read : string -> Exn str
}.

Definition placeholderSrc : str :=
  lit "data:image/gif;base64,R0lGODlhAQABAIAAAAAAAP///yH5BAEAAAAALAAAAAABAAEAAAIBRAA7".

(** The function given to [mammoth.images.imgElement]. *)
Definition convertImage (image : EmbeddedImage) : Exn ImageAttributes :=
  match read image "base64" with
  | Ok imageBuffer => Ok (mkAttrs placeholderSrc (lit "remove-me"))
  | Raise e => Raise e
  end.

Record Options := mkOptions {
  styleMap : list string;
  imageHandler : EmbeddedImage -> Exn ImageAttributes
}.

Definition options : Options :=
  mkOptions
    [ "p[style-name='Title'] => h1:fresh";
      "p[style-name='Heading 1'] => h2:fresh";
      "p[style-name='Heading 2'] => h3:fresh";
      "p[style-name='Heading 3'] => h4:fresh";
      "p[style-name='Quote'] => blockquote:fresh" ]%string
    convertImage.

(** What [mammoth.convertToHtml] resolves to. *)
Record ConversionResult := mkResult {
  value : str;
  messages : list str
}.

(** *** The normaliser: the text transforms of the [.then] callback *)

(** [/<img[^>]*class="remove-me"[^>]*>/g] *)
Definition sentinelImgRegex : regex :=
  lits "<img" ++ [Star (NotChar 62%N)] ++
  map Lit (lit "class=" ++ DQ ++ lit "remove-me" ++ DQ) ++
  [Star (NotChar 62%N)] ++ lits ">".

(** [/<img[^>]*>/g] *)
Definition imgRegex : regex :=
  lits "<img" ++ [Star (NotChar 62%N)] ++ lits ">".

(** Step 1, first line. *)
Definition removeSentinelImages (htmlContent : str) : str :=
  replaceAll htmlContent sentinelImgRegex [].

(** Step 1, second line. *)
Definition removeAllImages (htmlContent : str) : str :=
  replaceAll htmlContent imgRegex [].

Definition bannerHtml : str :=
  lit "<img src=" ++ DQ ++ lit "banner.png" ++ DQ ++
  lit " alt=" ++ DQ ++ lit "Banner" ++ DQ ++
  lit " style=" ++ DQ ++
  lit "width: 100%; height: auto; display: block; margin: 0 auto 30px;" ++ DQ ++
  lit ">" ++ NL.

(** Step 2. *)
Definition prependBanner (htmlContent : str) : str :=
  bannerHtml ++ htmlContent.

(** ['<div class="citations">\n<h2>References</h2>\n'] and ['\n</div>'] *)
Definition citationsOpen : str :=
  lit "<div class=" ++ DQ ++ lit "citations" ++ DQ ++ lit ">" ++ NL ++
  lit "<h2>References</h2>" ++ NL.

Definition citationsClose : str := NL ++ lit "</div>".

Definition upArrow : str := [8593%N].   (* U+2191 *)

(** [footnotesContent.includes('footnote-') || footnotesContent.includes('↑')] *)
Definition hasFootnoteMarker (footnotesContent : str) : bool :=
  includes footnotesContent (lit "footnote-") || includes footnotesContent upArrow.

(** [/<ol>[\s\S]*?<\/ol>\s*$/] *)
Definition trailingOlRegex : regex :=
  lits "<ol>" ++ [StarLazy AnyChar] ++ lits "</ol>" ++ [Star Space; EndOfInput].

(** Step 3. *)
Definition wrapFootnotes (htmlContent : str) : str :=
  if endsWith (trim htmlContent) (lit "</ol>") then
    let lastOlIndex := lastIndexOf htmlContent (lit "<ol>") in
    if negb (lastOlIndex =? -1)%Z then
      let footnotesContent := substring htmlContent lastOlIndex None in
      if hasFootnoteMarker footnotesContent then
        let beforeFootnotes := substring htmlContent 0 (Some lastOlIndex) in
        beforeFootnotes ++ citationsOpen ++ footnotesContent ++ citationsClose
      else htmlContent
    else htmlContent
  else
    match match0 trailingOlRegex htmlContent with
    | Some footnotesContent =>
        if hasFootnoteMarker footnotesContent then
          replaceString htmlContent footnotesContent
            (citationsOpen ++ footnotesContent ++ citationsClose)
        else htmlContent
    | None => htmlContent
    end.

(** Steps 1 and 2: what happens to images. *)
Definition normalizeImages (htmlContent : str) : str :=
  prependBanner (removeAllImages (removeSentinelImages htmlContent)).

(** Steps 1 to 3, in the order of the source. *)
Definition normalize (htmlContent : str) : str :=
  wrapFootnotes (normalizeImages htmlContent).

(** [/<div class="citations">[\s\S]*?<\/div>/] *)
Definition citationsRegex : regex :=
  map Lit (lit "<div class=" ++ DQ ++ lit "citations" ++ DQ ++ lit ">") ++
  [StarLazy AnyChar] ++ lits "</div>".

(** *** The script *)

Section Script.

(** [mammoth.convertToHtml], an external library, applied to the options
    and to the bytes of the file at the path it is given. *)
Variable mammoth_convertToHtml : Options -> str -> Exn ConversionResult.

(** The callback of [.then]. *)
Definition onConverted (result : ConversionResult) : Proc unit :=
  let htmlContent := normalize (value result) in
  (match messages result with
   | [] => ret tt
   | _ :: _ => console_log (TextAndList (lit "Conversion warnings:") (messages result))
   end) ;;
  indexHtml <- readFileSync IndexPath ;;
  indexHtml <-
    (if test articleRegex indexHtml
     then ret (replace indexHtml articleRegex (newArticle htmlContent))
     else
       console_error (Text (lit "Could not find <article> tag in index.html")) ;;
       process_exit 1) ;;
  let indexHtml := replace indexHtml citationsRegex [] in
  writeFileSync IndexPath indexHtml ;;
  console_log (Text (lit "Successfully updated manifesto/index.html from manifesto.docx")).

Definition main : Proc unit :=
  present <- existsSync SourcePath ;;
  if negb present then
    console_error (TextAndPath (lit "Error: Source file not found at ") SourcePath) ;;
    console_error
      (Text (lit "Please export your Google Doc as .docx and save it as " ++ DQ ++
          lit "manifesto.docx" ++ DQ ++ lit " in the manifesto folder.")) ;;
    process_exit 1
  else
    tryCatch
      (emit ConversionStarted ;;
       docx <- readFileSync SourcePath ;;
       result <- settle (mammoth_convertToHtml options docx) ;;
       onConverted result)
      (fun error =>
         console_error (TextAndError (lit "Error converting DOCX:") error) ;;
         process_exit 1).

End Script.

End BuildFromDocx.

(** ** The markup mammoth writes

    mammoth's HTML writer escapes [<] and [>] (and [&]) in text and in
    attribute values, so that in a converted fragment every [<] opens a tag
    and the next [>] closes it.  A fragment of this shape is the rendering
    of a list of tokens. *)

Module Markup.
Import JS.

Inductive token :=
| Chars (t : str)        (* text between tags *)
| Tag (body : str).      (* <body> *)

Definition LT : char := 60%N.
Definition GT : char := 62%N.

Definition render_token (k : token) : str :=
  match k with
  | Chars t => t
  | Tag body => LT :: body ++ [GT]
  end.

Definition render (ks : list token) : str := flat_map render_token ks.

Definition wf_token (k : token) : bool :=
  match k with
  | Chars t => forallb (fun c => negb (char_eqb c LT)) t
  | Tag body => forallb (fun c => negb (char_eqb c LT) && negb (char_eqb c GT)) body
  end.

Definition wellFormed (ks : list token) : bool := forallb wf_token ks.

(** A tag whose name starts with [img]. *)
Definition isImg (k : token) : bool :=
  match k with
  | Chars _ => false
  | Tag body => startsWith body (lit "img")
  end.

(** An image tag with [class="remove-me"] somewhere after [img]. *)
Definition isSentinelImg (k : token) : bool :=
  match k with
  | Chars _ => false
  | Tag body =>
      startsWith body (lit "img") &&
      includes (skipn 3 body) (lit "class=" ++ [34%N] ++ lit "remove-me" ++ [34%N])
  end.

End Markup.

(** ** Reading the placeholder image

    What is needed of base64 and of the GIF format to say what image the
    placeholder of the image handler is. *)

Module Gif.
Import JS.

Definition base64_digit (c : char) : option N :=
  (if (65 <=? c) && (c <=? 90) then Some (c - 65)          (* A-Z *)
   else if (97 <=? c) && (c <=? 122) then Some (c - 71)    (* a-z *)
   else if (48 <=? c) && (c <=? 57) then Some (c + 4)      (* 0-9 *)
   else if c =? 43 then Some 62                            (* + *)
   else if c =? 47 then Some 63                            (* / *)
   else None)%N.

(** Unpadded base64 whose length is a multiple of four. *)
Fixpoint base64_decode (s : str) : option (list N) :=
  match s with
  | [] => Some []
  | a :: b :: c :: d :: rest =>
      match base64_digit a, base64_digit b, base64_digit c, base64_digit d,
            base64_decode rest with
      | Some x, Some y, Some z, Some w, Some bytes =>
          Some ((4 * x + y / 16) :: (16 * (y mod 16) + z / 4)
                :: (64 * (z mod 4) + w) :: bytes)%N
      | _, _, _, _, _ => None
      end
  | _ => None
  end.

Record info := mkInfo {
  screenWidth : N;
  screenHeight : N;
  transparent : bool;       (* a graphic control extension says so *)
  frameWidth : N;
  frameHeight : N
}.

Definition u16 (lo hi : N) : N := (lo + 256 * hi)%N.

(** After the logical screen descriptor and the global colour table: an
    optional graphic control extension, then the image descriptor. *)
Definition parseFrame (bytes : list N) (transp : bool) : option (bool * N * N) :=
  match bytes with
  | sep :: _ :: _ :: _ :: _ :: w0 :: w1 :: h0 :: h1 :: _ =>
      if (sep =? 44)%N then Some (transp, u16 w0 w1, u16 h0 h1) else None
  | _ => None
  end.

Definition parseBlocks (bytes : list N) : option (bool * N * N) :=
  match bytes with
  | intro :: label :: size :: flags :: _ :: _ :: _ :: term :: rest =>
      if ((intro =? 33) && (label =? 249) && (size =? 4) && (term =? 0))%N
      then parseFrame rest (N.testbit flags 0)
      else parseFrame bytes false
  | _ => parseFrame bytes false
  end.

(** A GIF89a file: signature, logical screen descriptor, global colour
    table if the packed field announces one, then the blocks. *)
Definition parse (bytes : list N) : option info :=
  match bytes with
  | s0 :: s1 :: s2 :: s3 :: s4 :: s5 ::
    w0 :: w1 :: h0 :: h1 :: packed :: _ :: _ :: rest =>
      if str_eqb [s0; s1; s2; s3; s4; s5] (lit "GIF89a") then
        let table := if N.testbit packed 7
                     then (3 * N.to_nat (2 ^ (N.land packed 7 + 1)))%nat
                     else 0%nat in
        match parseBlocks (skipn table rest) with
        | Some (t, fw, fh) => Some (mkInfo (u16 w0 w1) (u16 h0 h1) t fw fh)
        | None => None
        end
      else None
  | _ => None
  end.

Definition dataUrlPrefix : str := lit "data:image/gif;base64,".

(** The image behind a [data:image/gif;base64,...] URL. *)
Definition ofDataUrl (url : str) : option info :=
  if startsWith url dataUrlPrefix then
    match base64_decode (skipn (length dataUrlPrefix) url) with
    | Some bytes => parse bytes
    | None => None
    end
  else None.

End Gif.

(** ** Notions used in the statements *)

Module Notions.
Import JS Regex Node Common Markup BuildFromDocx.

(** A continuation that gives a prefix of its input. *)
Definition prefixCont (cont : str -> option str) : Prop :=
  forall s m, cont s = Some m -> exists a, s = m ++ a.

(** The result of [exec] on a subject, seen from [b] before it. *)
Definition shift (b : str) (x : option (str * str * str)) : option (str * str * str) :=
  match x with
  | Some (b', m, a) => Some (b ++ b', m, a)
  | None => None
  end.

(** The file system after a run that wrote [content] to the template. *)
Definition withIndex (fs : FileSystem) (content : str) : FileSystem :=
  mkFS (fun q => if path_eqb q IndexPath then Some content else file fs q)
       (writable fs).

(** The warnings the DOCX script prints, if mammoth gave any. *)
Definition warningsLog (result : BuildFromDocx.ConversionResult) : list Event :=
  match BuildFromDocx.messages result with
  | [] => []
  | _ :: _ =>
      [ConsoleLog (TextAndList (lit "Conversion warnings:") (BuildFromDocx.messages result))]
  end.

(** What both scripts print when the template has no region. *)
Definition regionMissingMessage : Message :=
  Text (lit "Could not find <article> tag in index.html").

(** The first token that [sel] selects, with the tokens before and after. *)
Fixpoint splitAtFirst (sel : token -> bool) (ks : list token)
  : option (list token * token * list token) :=
  match ks with
  | [] => None
  | k :: ks' =>
      if sel k then Some ([], k, ks')
      else match splitAtFirst sel ks' with
           | Some (p, x, q) => Some (k :: p, x, q)
           | None => None
           end
  end.

(** The tokens that [sel] does not select. *)
Definition keep (sel : token -> bool) (ks : list token) : list token :=
  filter (fun k => negb (sel k)) ks.

(** The two image patterns after their first [<]. *)
Definition imgTail : regex := map Lit (lit "img") ++ [Star (NotChar GT); Lit GT].

Definition sentinelText : str := lit "class=" ++ [34%N] ++ lit "remove-me" ++ [34%N].

Definition sentinelTail : regex :=
  map Lit (lit "img") ++ Star (NotChar GT) :: map Lit sentinelText ++
  [Star (NotChar GT); Lit GT].

(** A fragment whose trailing list step 3 has wrapped. *)
Definition wrapped (before footnotes : str) : str :=
  before ++ citationsOpen ++ footnotes ++ citationsClose.

(** The banner and the two ends of the citations container, as tokens. *)
Definition bannerToken : token :=
  Tag (lit "img src=" ++ DQ ++ lit "banner.png" ++ DQ ++
       lit " alt=" ++ DQ ++ lit "Banner" ++ DQ ++
       lit " style=" ++ DQ ++
       lit "width: 100%; height: auto; display: block; margin: 0 auto 30px;" ++ DQ).

Definition citationsOpenTokens : list token :=
  [Tag (lit "div class=" ++ DQ ++ lit "citations" ++ DQ); Chars NL;
   Tag (lit "h2"); Chars (lit "References"); Tag (lit "/h2"); Chars NL].

Definition citationsCloseTokens : list token := [Chars NL; Tag (lit "/div")].

(** The tags that delimit the content region. *)
Definition openTag : str := lit "<article>".
Definition closeTag : str := lit "</article>".

(** The regions of a template: the successive matches of the pattern. *)
Definition regions (t : str) : list str := matchAll t articleRegex.

(** No dollar sign: nothing for a replacement template to expand. *)
Definition noDollar (s : str) : bool := forallb (fun c => negb (c =? 36)%N) s.

(** [/opn[\s\S]*?cls/]: the shape of the region pattern and of the
    citations pattern. *)
Definition blockRegex (opn cls : str) : regex :=
  map Lit opn ++ [StarLazy AnyChar] ++ map Lit cls.

(** The two ends of the citations pattern. *)
Definition citationsOpenTag : str :=
  lit "<div class=" ++ DQ ++ lit "citations" ++ DQ ++ lit ">".
Definition divCloseTag : str := lit "</div>".

(** The contents written to a file during a run, oldest first. *)
Definition writesTo (p : Path) (o : Outcome) : list str :=
  flat_map
    (fun e => match e with
              | FileWritten q content => if path_eqb q p then [content] else []
              | _ => []
              end)
    (trace o).

(** The last line each script prints when all went well. *)
Definition markdownDone : Message :=
  Text (lit "Successfully updated manifesto/index.html with content from source.md").
Definition docxDone : Message :=
  Text (lit "Successfully updated manifesto/index.html from manifesto.docx").

(** [t] occurs in [s]. *)
Definition occursIn (t s : str) : Prop := exists a b, s = a ++ t ++ b.

End Notions.

(** ** Sample runs *)

Module Samples.
Import JS Regex Node Common Markup BuildFromDocx.

(** A file system with the given source and template. *)
Definition fsOf (source index : option str) (canWrite : bool) : FileSystem :=
  mkFS (fun p => match p with SourcePath => source | IndexPath => index end)
       (fun _ => canWrite).

Definition page : str := lit "<html><body><article>old</article></body></html>".
Definition pageWithoutRegion : str := lit "<html><body><main>old</main></body></html>".

(** A paragraph with two dollar signs, and the HTML marked renders it to. *)
Definition priceMarkdown : str := lit "Cost: $$5".
Definition priceHtml : str := lit "<p>Cost: $$5</p>" ++ NL.

(** A renderer that knows this one paragraph. *)
Definition markedOnPrice (md : str) : Exn str :=
  if str_eqb md priceMarkdown then Ok priceHtml
  else Raise (LibraryError (lit "not rendered here")).

(** What mammoth gives for a paragraph with one footnote: the footnotes
    are an ordered list at the end, each with a link back to its mark. *)
Definition footnoteHtml : str :=
  lit "<p>Text<sup><a href=" ++ DQ ++ lit "#footnote-1" ++ DQ ++
  lit " id=" ++ DQ ++ lit "footnote-ref-1" ++ DQ ++ lit ">[1]</a></sup></p>" ++
  lit "<ol><li id=" ++ DQ ++ lit "footnote-1" ++ DQ ++ lit "><p> Note <a href=" ++
  DQ ++ lit "#footnote-ref-1" ++ DQ ++ lit ">" ++ upArrow ++ lit "</a></p></li></ol>".

(** The first bytes of a DOCX file (a zip archive). *)
Definition docxBytes : str := lit "PK".

Definition mammothOnFootnote (_ : Options) (_ : str) : Exn ConversionResult :=
  Ok (mkResult footnoteHtml []).

Definition mammothFailing (_ : Options) (_ : str) : Exn ConversionResult :=
  Raise (LibraryError (lit "Can't find end of central directory")).

Definition someImage : EmbeddedImage :=
  mkImage (fun _ => Ok (lit "iVBORw0KGgo=")).

(** A paragraph with an image placeholder, then a footnote list. *)
Definition sampleMarkup : list token :=
  [Tag (lit "p"); Chars (lit "Hi");
   Tag (lit "img src=" ++ DQ ++ lit "data:image/gif;base64,R0lGODlhAQAB" ++ DQ ++
        lit " class=" ++ DQ ++ lit "remove-me" ++ DQ ++ lit " /");
   Tag (lit "/p");
   Tag (lit "ol"); Tag (lit "li id=" ++ DQ ++ lit "footnote-1" ++ DQ);
   Chars (lit "Note"); Tag (lit "/li"); Tag (lit "/ol")].

(** A template with two regions and a citations block between them. *)
Definition twoRegionsPage : str :=
  lit "<article>a</article><div class=" ++ DQ ++ lit "citations" ++ DQ ++
  lit ">old</div><article>b</article>".

Definition afterFirstRegion : str :=
  lit "<div class=" ++ DQ ++ lit "citations" ++ DQ ++
  lit ">old</div><article>b</article>".

(** A document of one paragraph, without footnotes. *)
Definition mammothOnParagraph (_ : Options) (_ : str) : Exn ConversionResult :=
  Ok (mkResult (lit "<p>x</p>") []).

(** A heading, and a renderer that knows it. *)
Definition titleMarkdown : str := lit "# Hi".
Definition titleHtml : str := lit "<h1>Hi</h1>" ++ NL.

Definition markedOnTitle (md : str) : Exn str :=
  if str_eqb md titleMarkdown then Ok titleHtml
  else Raise (LibraryError (lit "not rendered here")).

(** A document of one paragraph, with one warning. *)
Definition mammothWithWarning (_ : Options) (_ : str) : Exn ConversionResult :=
  Ok (mkResult (lit "<p>x</p>") [lit "Unrecognised paragraph style"]).

(** A footnote list with a list inside its one footnote, alone and after a
    paragraph; and the same with a back link after the inner list. *)
Definition nestedList : str :=
  lit "<ol><li id=" ++ DQ ++ lit "footnote-1" ++ DQ ++
  lit ">a<ol><li>inner</li></ol></li></ol>".

Definition nestedFootnotes : str := lit "<p>x</p>" ++ nestedList.

Definition nestedListWithBackLink : str :=
  lit "<ol><li id=" ++ DQ ++ lit "footnote-1" ++ DQ ++
  lit ">a<ol><li>inner</li></ol> <a href=" ++ DQ ++ lit "#footnote-ref-1" ++ DQ ++
  lit ">" ++ upArrow ++ lit "</a></li></ol>".

End Samples.

(** * Properties *)

(** ** The string and pattern operations on small inputs *)

Module Checks.
Import JS Regex Common BuildFromDocx.

Example lazy_star_stops_early :
  exec articleRegex (lit "x<article>a</article>b</article>") =
  Some (lit "x", lit "<article>a</article>", lit "b</article>").
Proof. reflexivity. Qed.

Example unclosed_region_is_skipped :
  exec articleRegex (lit "</article><article>a") = None.
Proof. reflexivity. Qed.

Example greedy_star_backtracks :
  match0 sentinelImgRegex
    (lit "<p><img alt=x class=" ++ DQ ++ lit "remove-me" ++ DQ ++ lit " /></p>") =
  Some (lit "<img alt=x class=" ++ DQ ++ lit "remove-me" ++ DQ ++ lit " />").
Proof. reflexivity. Qed.

Example global_replace_removes_each_match :
  removeAllImages (lit "a<img x>b<img>c<imp>") = lit "abc<imp>".
Proof. reflexivity. Qed.

Example end_anchor_allows_trailing_space :
  match0 trailingOlRegex (lit "<p>x</p><ol><li>a</li></ol> " ++ NL) =
  Some (lit "<ol><li>a</li></ol> " ++ NL).
Proof. reflexivity. Qed.

Example end_anchor_rejects_trailing_text :
  match0 trailingOlRegex (lit "<ol><li>a</li></ol><p>x</p>") = None.
Proof. reflexivity. Qed.

Example substitution_patterns :
  getSubstitution (lit "M") (lit "B") (lit "A") (lit "a$$b$&c$`d$'e$1f$") =
  lit "a$bMcBdAe$1f$".
Proof. reflexivity. Qed.

Example lastIndexOf_finds_the_last :
  lastIndexOf (lit "<ol>a<ol>b") (lit "<ol>") = 5%Z /\
  lastIndexOf (lit "abc") (lit "<ol>") = (-1)%Z.
Proof. split; reflexivity. Qed.

Example trim_both_ends :
  trim (NL ++ lit "  a b " ++ [160%N; 8232%N]) = lit "a b".
Proof. reflexivity. Qed.

Example substring_clamps_and_swaps :
  substring (lit "abcdef") 4 (Some 1%Z) = lit "bcd" /\
  substring (lit "abcdef") (-3) (Some 99%Z) = lit "abcdef" /\
  substring (lit "abcdef") 2 None = lit "cdef".
Proof. repeat split; reflexivity. Qed.

Example string_replace_first_occurrence :
  replaceString (lit "a-b-c") (lit "-") (lit "[$&]") = lit "a[-]b-c".
Proof. reflexivity. Qed.

End Checks.

(** ** Strings *)

Module StrFacts.
Import JS.

Lemma char_eqb_eq (a b : char) : char_eqb a b = true <-> a = b.
Proof. apply N.eqb_eq. Qed.

Lemma char_eqb_refl (a : char) : char_eqb a a = true.
Proof. apply N.eqb_refl. Qed.

Lemma str_eqb_eq (a b : str) : str_eqb a b = true <-> a = b.
Proof.
  revert b; induction a as [|x a IH]; intros [|y b]; simpl; split;
    try discriminate; try reflexivity.
  - intros H. apply andb_true_iff in H as [Hx Ha].
    apply char_eqb_eq in Hx. apply IH in Ha. congruence.
  - intros H. injection H as -> ->.
    rewrite char_eqb_refl. simpl. now apply IH.
Qed.

Lemma startsWith_iff (s t : str) :
  startsWith s t = true <-> exists r, s = t ++ r.
Proof.
  revert s; induction t as [|y t IH]; intros s; simpl.
  - split; [ intros _; now exists s | reflexivity ].
  - destruct s as [|x s].
    + split; [ discriminate | intros [r Hr]; discriminate ].
    + rewrite andb_true_iff, char_eqb_eq, IH. split.
      * intros [-> [r ->]]. now exists r.
      * intros [r Hr]. injection Hr as -> ->. split; [ reflexivity | now exists r ].
Qed.

Lemma startsWith_app (t r : str) : startsWith (t ++ r) t = true.
Proof. apply startsWith_iff. now exists r. Qed.

Lemma startsWith_skipn (s t : str) :
  startsWith s t = true -> s = t ++ skipn (length t) s.
Proof.
  intros H. apply startsWith_iff in H as [r ->].
  now rewrite skipn_app, skipn_all, Nat.sub_diag.
Qed.

Lemma includes_iff (s t : str) :
  includes s t = true <-> exists u v, s = u ++ t ++ v.
Proof.
  induction s as [|x s IH]; simpl.
  - rewrite orb_false_r, startsWith_iff. split.
    + intros [r Hr]. now exists [], r.
    + intros [u [v H]]. destruct u; [ now exists v | discriminate ].
  - rewrite orb_true_iff, startsWith_iff, IH. split.
    + intros [[r Hr] | [u [v Huv]]].
      * now exists [], r.
      * exists (x :: u), v. now rewrite Huv.
    + intros [[|y u] [v Huv]].
      * left. now exists v.
      * right. injection Huv as -> ->. now exists u, v.
Qed.

Lemma includes_app_r (u s t : str) :
  includes s t = true -> includes (u ++ s) t = true.
Proof.
  rewrite !includes_iff. intros [a [b ->]].
  exists (u ++ a), b. now rewrite <- app_assoc.
Qed.

Lemma includes_app_l (s v t : str) :
  includes s t = true -> includes (s ++ v) t = true.
Proof.
  rewrite !includes_iff. intros [a [b ->]].
  exists a, (b ++ v). now rewrite <- !app_assoc.
Qed.

End StrFacts.

(** ** The matcher *)

Module RegexFacts.
Import JS Regex Notions StrFacts.

Lemma greedyStar_prefix k cont :
  prefixCont cont -> prefixCont (greedyStar k cont).
Proof.
  intros Hc s. induction s as [|c s IH]; intros m; simpl.
  - apply Hc.
  - destruct (cls_mem k c); [ | apply Hc ].
    destruct (greedyStar k cont s) as [m'|] eqn:E.
    + intros H. injection H as <-. destruct (IH _ eq_refl) as [a ->]. now exists a.
    + apply Hc.
Qed.

Lemma lazyStar_prefix k cont :
  prefixCont cont -> prefixCont (lazyStar k cont).
Proof.
  intros Hc s. induction s as [|c s IH]; intros m; simpl.
  - destruct (cont []) eqn:E; [ | discriminate ].
    intros H. injection H as <-. now apply Hc.
  - destruct (cont (c :: s)) eqn:E.
    + intros H. injection H as <-. now apply Hc.
    + destruct (cls_mem k c); [ | discriminate ].
      destruct (lazyStar k cont s) as [m'|]; [ | discriminate ].
      simpl. intros H. injection H as <-.
      destruct (IH _ eq_refl) as [a ->]. now exists a.
Qed.

Lemma matchHere_prefix r : prefixCont (matchHere r).
Proof.
  induction r as [|[c|k|k|] r IH]; intros s m; simpl.
  - intros H. injection H as <-. now exists s.
  - destruct s as [|x s]; [ discriminate | ].
    destruct (char_eqb x c); [ | discriminate ].
    destruct (matchHere r s) as [m'|] eqn:E; [ | discriminate ].
    simpl. intros H. injection H as <-.
    destruct (IH _ _ E) as [a ->]. now exists a.
  - now apply greedyStar_prefix.
  - now apply lazyStar_prefix.
  - destruct s; [ apply IH | discriminate ].
Qed.

Lemma matchHere_skipn r s m :
  matchHere r s = Some m -> s = m ++ skipn (length m) s.
Proof.
  intros H. destruct (matchHere_prefix _ _ _ H) as [a ->].
  now rewrite skipn_app, skipn_all, Nat.sub_diag.
Qed.

(** Literals at the head of a pattern. *)
Lemma matchHere_lits (t : str) r s :
  matchHere (map Lit t ++ r) s =
  if startsWith s t
  then option_map (app t) (matchHere r (skipn (length t) s))
  else None.
Proof.
  revert s; induction t as [|y t IH]; intros s; simpl.
  - now destruct (matchHere r s).
  - destruct s as [|x s]; [ reflexivity | ].
    destruct (char_eqb x y) eqn:E; simpl; [ | reflexivity ].
    apply char_eqb_eq in E as ->. rewrite IH.
    destruct (startsWith s t); [ | reflexivity ].
    now destruct (matchHere r (skipn (length t) s)).
Qed.

Lemma matchHere_lits_app (t : str) r a :
  matchHere (map Lit t ++ r) (t ++ a) = option_map (app t) (matchHere r a).
Proof.
  rewrite matchHere_lits, startsWith_app.
  now rewrite skipn_app, skipn_all, Nat.sub_diag.
Qed.

(** [exec] splits the subject around a match that starts where it says. *)
Lemma exec_sound r s b m a :
  exec r s = Some (b, m, a) ->
  s = b ++ m ++ a /\ matchHere r (m ++ a) = Some m.
Proof.
  revert b; induction s as [|c s IH]; intros b; simpl.
  - destruct (matchHere r []) as [m'|] eqn:E; [ | discriminate ].
    intros H. injection H as <- <- <-.
    pose proof (matchHere_skipn _ _ _ E) as Hs. simpl.
    split; [ exact Hs | now rewrite <- Hs ].
  - destruct (matchHere r (c :: s)) as [m'|] eqn:E.
    + intros H. injection H as <- <- <-.
      pose proof (matchHere_skipn _ _ _ E) as Hs. simpl.
      split; [ exact Hs | now rewrite <- Hs ].
    + destruct (exec r s) as [[[b' m'] a']|]; [ | discriminate ].
      intros H. injection H as <- <- <-.
      destruct (IH _ eq_refl) as [-> Hm]. now split.
Qed.

(** No match starts inside the text before the one [exec] finds. *)
Lemma exec_leftmost r s b m a :
  exec r s = Some (b, m, a) ->
  forall u v, b = u ++ v -> v <> [] -> matchHere r (v ++ m ++ a) = None.
Proof.
  revert b; induction s as [|c s IH]; intros b; simpl.
  - destruct (matchHere r []); [ | discriminate ].
    intros H. injection H as <- <- <-. intros [|] [|]; simpl; congruence.
  - destruct (matchHere r (c :: s)) as [m'|] eqn:E.
    + intros H. injection H as <- <- <-. intros [|] [|]; simpl; congruence.
    + destruct (exec r s) as [[[b' m'] a']|] eqn:Ex; [ | discriminate ].
      intros H. injection H as <- <- <-.
      destruct (exec_sound _ _ _ _ _ Ex) as [Hs _].
      intros [|x u] v Huv Hv; simpl in Huv.
      * subst v. simpl. now rewrite <- Hs.
      * injection Huv as -> ->. now apply (IH _ eq_refl u).
Qed.

Lemma exec_none r s :
  exec r s = None -> forall u v, s = u ++ v -> matchHere r v = None.
Proof.
  induction s as [|c s IH]; simpl.
  - destruct (matchHere r []) eqn:E; [ discriminate | ].
    intros _ [|] [|]; simpl; congruence.
  - destruct (matchHere r (c :: s)) eqn:E; [ discriminate | ].
    destruct (exec r s) as [[[b' m'] a']|] eqn:Ex; [ discriminate | ].
    intros _ [|x u] v Huv; simpl in Huv.
    + now subst v.
    + injection Huv as -> ->. now apply (IH eq_refl u).
Qed.

(** Where a match is, [exec] finds one. *)
Lemma exec_complete r u v m :
  matchHere r v = Some m -> exec r (u ++ v) <> None.
Proof.
  intros Hm Hn. now rewrite (exec_none _ _ Hn u v eq_refl) in Hm.
Qed.

(** Text in which no match starts is skipped. *)
Lemma exec_skip r b s :
  (forall u v, b = u ++ v -> v <> [] -> matchHere r (v ++ s) = None) ->
  exec r (b ++ s) = shift b (exec r s).
Proof.
  induction b as [|c b IH]; intros H; simpl.
  - now destruct (exec r s) as [[[? ?] ?]|].
  - pose proof (H [] (c :: b) eq_refl) as H0. simpl in H0.
    rewrite H0; [ | discriminate ].
    rewrite IH.
    + now destruct (exec r s) as [[[? ?] ?]|].
    + intros u v -> Hv. now apply (H (c :: u) v).
Qed.

Lemma exec_here r s m :
  matchHere r s = Some m -> exec r s = Some ([], m, skipn (length m) s).
Proof.
  intros H. destruct s; simpl; now rewrite H.
Qed.

(** A pattern that starts with a literal finds nothing in text without
    that code unit. *)
Lemma exec_skip_lit c r t s :
  forallb (fun x => negb (char_eqb x c)) t = true ->
  exec (Lit c :: r) (t ++ s) = shift t (exec (Lit c :: r) s).
Proof.
  intros Ht. apply exec_skip. intros u [|x v] -> Hv; [ congruence | ].
  rewrite forallb_app in Ht. apply andb_true_iff in Ht as [_ Ht].
  simpl in Ht. apply andb_true_iff in Ht as [Hx _].
  simpl. now destruct (char_eqb x c).
Qed.

Lemma test_true_iff r s :
  test r s = true <-> exists b m a, exec r s = Some (b, m, a).
Proof.
  unfold test. destruct (exec r s) as [[[b m] a]|]; split.
  - intros _. now exists b, m, a.
  - reflexivity.
  - discriminate.
  - intros (b & m & a & H). discriminate.
Qed.

(** [replace] touches nothing outside the match. *)
Lemma replace_frame s r template b m a :
  exec r s = Some (b, m, a) ->
  replace s r template = b ++ getSubstitution m b a template ++ a.
Proof. unfold replace. now intros ->. Qed.

Lemma replace_none s r template :
  exec r s = None -> replace s r template = s.
Proof. unfold replace. now intros ->. Qed.

(** Fuel beyond the length of the subject changes nothing. *)
Lemma matchAll_loop_fuel r : forall f1 f2 s,
  (length s < f1)%nat -> (length s < f2)%nat ->
  matchAll_loop f1 s r = matchAll_loop f2 s r.
Proof.
  induction f1 as [|f1 IH]; intros [|f2] s H1 H2; try lia.
  cbn [matchAll_loop]. destruct (exec r s) as [[[b m] a]|] eqn:E; [ | reflexivity ].
  destruct (exec_sound _ _ _ _ _ E) as [Hs _].
  assert (Hlen : length s = (length b + length m + length a)%nat)
    by (rewrite Hs, !length_app; lia).
  f_equal. destruct m as [|c m].
  - destruct a as [|c a]; [ reflexivity | ].
    apply IH; simpl in *; lia.
  - apply IH; simpl in *; lia.
Qed.

Lemma replaceAll_loop_fuel r template : forall f1 f2 seen s,
  (length s < f1)%nat -> (length s < f2)%nat ->
  replaceAll_loop f1 seen s r template = replaceAll_loop f2 seen s r template.
Proof.
  induction f1 as [|f1 IH]; intros [|f2] seen s H1 H2; try lia.
  cbn [replaceAll_loop]. destruct (exec r s) as [[[b m] a]|] eqn:E; [ | reflexivity ].
  destruct (exec_sound _ _ _ _ _ E) as [Hs _].
  assert (Hlen : length s = (length b + length m + length a)%nat)
    by (rewrite Hs, !length_app; lia).
  do 2 f_equal. destruct m as [|c m].
  - destruct a as [|c a]; [ reflexivity | ].
    f_equal. apply IH; simpl in *; lia.
  - apply IH; simpl in *; lia.
Qed.

End RegexFacts.

(** ** Running the scripts *)

Module RunFacts.
Import JS Regex Node Common Notions.

Ltac step_script :=
  cbv beta iota zeta delta
    [run BuildManifesto.main BuildFromDocx.main BuildFromDocx.onConverted
     BuildFromDocx.messages BuildFromDocx.value tryCatch bind ret throw
     process_exit emit console_log console_error existsSync readFileSync
     writeFileSync settle fsys events negb].

Ltac run_script :=
  repeat (step_script; match goal with H : _ = _ |- _ => rewrite H end);
  step_script; try reflexivity.

Section Markdown.
Variable marked_parse : str -> Exn str.
Variable fs : FileSystem.

Lemma md_source_missing :
  file fs SourcePath = None ->
  run (BuildManifesto.main marked_parse) fs =
  mkOutcome fs
    [ConsoleError (TextAndError (lit "Error processing markdown:") (ENOENT SourcePath))] 0.
Proof. intros. run_script. Qed.

Lemma md_conversion_fails md e :
  file fs SourcePath = Some md ->
  marked_parse md = Raise e ->
  run (BuildManifesto.main marked_parse) fs =
  mkOutcome fs
    [ConversionStarted; ConsoleError (TextAndError (lit "Error processing markdown:") e)] 0.
Proof. intros. run_script. Qed.

Lemma md_index_missing md html :
  file fs SourcePath = Some md ->
  marked_parse md = Ok html ->
  file fs IndexPath = None ->
  run (BuildManifesto.main marked_parse) fs =
  mkOutcome fs
    [ConversionStarted;
     ConsoleError (TextAndError (lit "Error processing markdown:") (ENOENT IndexPath))] 0.
Proof. intros. run_script. Qed.

Lemma md_no_region md html t :
  file fs SourcePath = Some md ->
  marked_parse md = Ok html ->
  file fs IndexPath = Some t ->
  test articleRegex t = false ->
  run (BuildManifesto.main marked_parse) fs =
  mkOutcome fs
    [ConversionStarted;
     ConsoleError (Text (lit "Could not find <article> tag in index.html"))] 1.
Proof. intros. run_script. Qed.

Lemma md_write_fails md html t :
  file fs SourcePath = Some md ->
  marked_parse md = Ok html ->
  file fs IndexPath = Some t ->
  test articleRegex t = true ->
  writable fs IndexPath = false ->
  run (BuildManifesto.main marked_parse) fs =
  mkOutcome fs
    [ConversionStarted;
     ConsoleError (TextAndError (lit "Error processing markdown:") (EACCES IndexPath))] 0.
Proof. intros. run_script. Qed.

Lemma md_success md html t :
  file fs SourcePath = Some md ->
  marked_parse md = Ok html ->
  file fs IndexPath = Some t ->
  test articleRegex t = true ->
  writable fs IndexPath = true ->
  let written := replace t articleRegex (newArticle html) in
  run (BuildManifesto.main marked_parse) fs =
  mkOutcome (withIndex fs written)
    [ConversionStarted; FileWritten IndexPath written;
     ConsoleLog
       (Text (lit "Successfully updated manifesto/index.html with content from source.md"))]
    0.
Proof. intros. run_script. Qed.

End Markdown.

Section Docx.
Variable mammoth_convertToHtml :
  BuildFromDocx.Options -> str -> Exn BuildFromDocx.ConversionResult.
Variable fs : FileSystem.

Lemma docx_source_missing :
  file fs SourcePath = None ->
  run (BuildFromDocx.main mammoth_convertToHtml) fs =
  mkOutcome fs
    [ConsoleError (TextAndPath (lit "Error: Source file not found at ") SourcePath);
     ConsoleError
       (Text (lit "Please export your Google Doc as .docx and save it as " ++ DQ ++
          lit "manifesto.docx" ++ DQ ++ lit " in the manifesto folder."))]
    1.
Proof. intros. run_script. Qed.

Lemma docx_conversion_fails docx e :
  file fs SourcePath = Some docx ->
  mammoth_convertToHtml BuildFromDocx.options docx = Raise e ->
  run (BuildFromDocx.main mammoth_convertToHtml) fs =
  mkOutcome fs
    [ConversionStarted; ConsoleError (TextAndError (lit "Error converting DOCX:") e)] 1.
Proof. intros. run_script. Qed.

Lemma docx_index_missing docx result :
  file fs SourcePath = Some docx ->
  mammoth_convertToHtml BuildFromDocx.options docx = Ok result ->
  file fs IndexPath = None ->
  run (BuildFromDocx.main mammoth_convertToHtml) fs =
  mkOutcome fs
    (ConversionStarted :: warningsLog result ++
     [ConsoleError (TextAndError (lit "Error converting DOCX:") (ENOENT IndexPath))]) 1.
Proof.
  intros. destruct result as [v [|w ws]]; unfold warningsLog; run_script.
Qed.

Lemma docx_no_region docx result t :
  file fs SourcePath = Some docx ->
  mammoth_convertToHtml BuildFromDocx.options docx = Ok result ->
  file fs IndexPath = Some t ->
  test articleRegex t = false ->
  run (BuildFromDocx.main mammoth_convertToHtml) fs =
  mkOutcome fs
    (ConversionStarted :: warningsLog result ++
     [ConsoleError (Text (lit "Could not find <article> tag in index.html"))]) 1.
Proof.
  intros. destruct result as [v [|w ws]]; unfold warningsLog; run_script.
Qed.

Lemma docx_write_fails docx result t :
  file fs SourcePath = Some docx ->
  mammoth_convertToHtml BuildFromDocx.options docx = Ok result ->
  file fs IndexPath = Some t ->
  test articleRegex t = true ->
  writable fs IndexPath = false ->
  run (BuildFromDocx.main mammoth_convertToHtml) fs =
  mkOutcome fs
    (ConversionStarted :: warningsLog result ++
     [ConsoleError (TextAndError (lit "Error converting DOCX:") (EACCES IndexPath))]) 1.
Proof.
  intros. destruct result as [v [|w ws]]; unfold warningsLog; run_script.
Qed.

Lemma docx_success docx result t :
  file fs SourcePath = Some docx ->
  mammoth_convertToHtml BuildFromDocx.options docx = Ok result ->
  file fs IndexPath = Some t ->
  test articleRegex t = true ->
  writable fs IndexPath = true ->
  let injected :=
    replace t articleRegex
      (newArticle (BuildFromDocx.normalize (BuildFromDocx.value result))) in
  let written := replace injected BuildFromDocx.citationsRegex [] in
  run (BuildFromDocx.main mammoth_convertToHtml) fs =
  mkOutcome (withIndex fs written)
    (ConversionStarted :: warningsLog result ++
     [FileWritten IndexPath written;
      ConsoleLog (Text (lit "Successfully updated manifesto/index.html from manifesto.docx"))])
    0.
Proof.
  intros. destruct result as [v [|w ws]]; unfold warningsLog; run_script.
Qed.

End Docx.

End RunFacts.

(** ** Errors and exits *)

Import JS Regex Node Common Notions Samples RunFacts.

(** C3. When the content-region pattern finds no [<article>...</article>]
    in the template, a script that gets as far as the template prints the
    error and exits with status 1; and whatever happens to the source and
    the conversion, neither script writes the template: the files are
    after the run what they were before. *)
Theorem missing_region_aborts_without_writing
  (marked_parse : str -> Exn str)
  (mammoth_convertToHtml :
     BuildFromDocx.Options -> str -> Exn BuildFromDocx.ConversionResult)
  (fs : FileSystem) (t : str) :
  file fs IndexPath = Some t ->
  test articleRegex t = false ->
  let o1 := run (BuildManifesto.main marked_parse) fs in
  let o2 := run (BuildFromDocx.main mammoth_convertToHtml) fs in
  (forall md html,
     file fs SourcePath = Some md -> marked_parse md = Ok html ->
     printedError regionMissingMessage o1 /\ exitCode o1 = 1%Z) /\
  (forall docx result,
     file fs SourcePath = Some docx ->
     mammoth_convertToHtml BuildFromDocx.options docx = Ok result ->
     printedError regionMissingMessage o2 /\ exitCode o2 = 1%Z) /\
  wrote IndexPath o1 = false /\ files_after o1 = fs /\
  wrote IndexPath o2 = false /\ files_after o2 = fs.
Proof.
  intros Ht Hno o1 o2. subst o1 o2. split; [ | split ].
  - intros md html Hs Hm.
    rewrite (md_no_region marked_parse fs md html t Hs Hm Ht Hno).
    split; [ right; left | ]; reflexivity.
  - intros docx result Hs Hm.
    rewrite (docx_no_region mammoth_convertToHtml fs docx result t Hs Hm Ht Hno).
    split; [ | reflexivity ].
    unfold printedError; simpl. right. apply in_or_app. right. now left.
  - assert (H1 : wrote IndexPath (run (BuildManifesto.main marked_parse) fs) = false
                 /\ files_after (run (BuildManifesto.main marked_parse) fs) = fs).
    { destruct (file fs SourcePath) as [md|] eqn:Hs.
      - destruct (marked_parse md) as [html|e] eqn:Hm.
        + rewrite (md_no_region marked_parse fs md html t Hs Hm Ht Hno). now split.
        + rewrite (md_conversion_fails marked_parse fs md e Hs Hm). now split.
      - rewrite (md_source_missing marked_parse fs Hs). now split. }
    assert (H2 : wrote IndexPath (run (BuildFromDocx.main mammoth_convertToHtml) fs) = false
                 /\ files_after (run (BuildFromDocx.main mammoth_convertToHtml) fs) = fs).
    { destruct (file fs SourcePath) as [docx|] eqn:Hs.
      - destruct (mammoth_convertToHtml BuildFromDocx.options docx)
          as [result|e] eqn:Hm.
        + rewrite (docx_no_region mammoth_convertToHtml fs docx result t Hs Hm Ht Hno).
          split; [ | reflexivity ].
          destruct result as [v [|w ws]]; reflexivity.
        + rewrite (docx_conversion_fails mammoth_convertToHtml fs docx e Hs Hm).
          now split.
      - rewrite (docx_source_missing mammoth_convertToHtml fs Hs). now split. }
    tauto.
Qed.

(** C6. A conversion that throws, a read that fails and a write that fails
    all end in the top-level handler, which prints the error.  After it the
    Markdown script ends with status 0; the DOCX script exits with 1. *)
Theorem failures_are_caught_and_logged
  (marked_parse : str -> Exn str)
  (mammoth_convertToHtml :
     BuildFromDocx.Options -> str -> Exn BuildFromDocx.ConversionResult)
  (fs : FileSystem) :
  let o1 := run (BuildManifesto.main marked_parse) fs in
  let o2 := run (BuildFromDocx.main mammoth_convertToHtml) fs in
  let caught1 e := ConsoleError (TextAndError (lit "Error processing markdown:") e) in
  let caught2 e := ConsoleError (TextAndError (lit "Error converting DOCX:") e) in
  (* Markdown: the source cannot be read *)
  (file fs SourcePath = None ->
   trace o1 = [caught1 (ENOENT SourcePath)] /\ exitCode o1 = 0%Z) /\
  (* Markdown: marked throws *)
  (forall md e,
     file fs SourcePath = Some md -> marked_parse md = Raise e ->
     trace o1 = [ConversionStarted; caught1 e] /\ exitCode o1 = 0%Z) /\
  (* Markdown: the template cannot be read *)
  (forall md html,
     file fs SourcePath = Some md -> marked_parse md = Ok html ->
     file fs IndexPath = None ->
     trace o1 = [ConversionStarted; caught1 (ENOENT IndexPath)] /\
     exitCode o1 = 0%Z) /\
  (* Markdown: the template cannot be written *)
  (forall md html t,
     file fs SourcePath = Some md -> marked_parse md = Ok html ->
     file fs IndexPath = Some t -> test articleRegex t = true ->
     writable fs IndexPath = false ->
     trace o1 = [ConversionStarted; caught1 (EACCES IndexPath)] /\
     exitCode o1 = 0%Z) /\
  (* DOCX: mammoth rejects *)
  (forall docx e,
     file fs SourcePath = Some docx ->
     mammoth_convertToHtml BuildFromDocx.options docx = Raise e ->
     trace o2 = [ConversionStarted; caught2 e] /\ exitCode o2 = 1%Z) /\
  (* DOCX: the template cannot be read *)
  (forall docx result,
     file fs SourcePath = Some docx ->
     mammoth_convertToHtml BuildFromDocx.options docx = Ok result ->
     file fs IndexPath = None ->
     trace o2 = ConversionStarted :: warningsLog result ++ [caught2 (ENOENT IndexPath)] /\
     exitCode o2 = 1%Z) /\
  (* DOCX: the template cannot be written *)
  (forall docx result t,
     file fs SourcePath = Some docx ->
     mammoth_convertToHtml BuildFromDocx.options docx = Ok result ->
     file fs IndexPath = Some t -> test articleRegex t = true ->
     writable fs IndexPath = false ->
     trace o2 = ConversionStarted :: warningsLog result ++ [caught2 (EACCES IndexPath)] /\
     exitCode o2 = 1%Z).
Proof.
  intros o1 o2 caught1 caught2. subst o1 o2 caught1 caught2.
  repeat split.
  1-2: rewrite (md_source_missing marked_parse fs H); reflexivity.
  1-2: rewrite (md_conversion_fails marked_parse fs md e H H0); reflexivity.
  1-2: rewrite (md_index_missing marked_parse fs md html H H0 H1); reflexivity.
  1-2: rewrite (md_write_fails marked_parse fs md html t H H0 H1 H2 H3); reflexivity.
  1-2: rewrite (docx_conversion_fails mammoth_convertToHtml fs docx e H H0); reflexivity.
  1-2: rewrite (docx_index_missing mammoth_convertToHtml fs docx result H H0 H1);
       reflexivity.
  1-2: rewrite (docx_write_fails mammoth_convertToHtml fs docx result t H H0 H1 H2 H3);
       reflexivity.
Qed.

(** C7. With no source file, the DOCX script finds out by [existsSync]
    before it converts anything, prints where the file should be and what
    to do, and exits with status 1; the Markdown script's read throws.
    Either way the run ends and the template is not written: the files are
    what they were. *)
Theorem missing_source_leaves_template
  (marked_parse : str -> Exn str)
  (mammoth_convertToHtml :
     BuildFromDocx.Options -> str -> Exn BuildFromDocx.ConversionResult)
  (fs : FileSystem) :
  file fs SourcePath = None ->
  let o1 := run (BuildManifesto.main marked_parse) fs in
  let o2 := run (BuildFromDocx.main mammoth_convertToHtml) fs in
  trace o2 =
    [ConsoleError (TextAndPath (lit "Error: Source file not found at ") SourcePath);
     ConsoleError
       (Text (lit "Please export your Google Doc as .docx and save it as " ++ DQ ++
          lit "manifesto.docx" ++ DQ ++ lit " in the manifesto folder."))] /\
  exitCode o2 = 1%Z /\
  ~ In ConversionStarted (trace o2) /\
  wrote IndexPath o2 = false /\ files_after o2 = fs /\
  wrote IndexPath o1 = false /\ files_after o1 = fs /\
  ~ In ConversionStarted (trace o1).
Proof.
  intros Hs o1 o2. subst o1 o2.
  rewrite (md_source_missing marked_parse fs Hs).
  rewrite (docx_source_missing mammoth_convertToHtml fs Hs).
  simpl. repeat split; try reflexivity.
  - intros [H | [H | []]]; discriminate.
  - intros [H | []]; discriminate.
Qed.

(** ** The image handler *)

(** C9. Whatever the content read from an embedded image, the handler given
    to mammoth answers with the same attributes: the class [remove-me] and
    a source that is a GIF of one transparent pixel. *)
Theorem image_handler_gives_placeholder
  (image : BuildFromDocx.EmbeddedImage) (imageBuffer : str) :
  BuildFromDocx.read image "base64" = Ok imageBuffer ->
  BuildFromDocx.imageHandler BuildFromDocx.options image =
    Ok (BuildFromDocx.mkAttrs BuildFromDocx.placeholderSrc (lit "remove-me")) /\
  Gif.ofDataUrl BuildFromDocx.placeholderSrc = Some (Gif.mkInfo 1 1 true 1 1).
Proof.
  intros H. split.
  - simpl. unfold BuildFromDocx.convertImage. now rewrite H.
  - vm_compute. reflexivity.
Qed.

Lemma image_handler_gives_placeholder_witness :
  BuildFromDocx.imageHandler BuildFromDocx.options someImage =
    Ok (BuildFromDocx.mkAttrs BuildFromDocx.placeholderSrc (lit "remove-me")) /\
  Gif.ofDataUrl BuildFromDocx.placeholderSrc = Some (Gif.mkInfo 1 1 true 1 1).
Proof.
  apply (image_handler_gives_placeholder someImage (lit "iVBORw0KGgo=")).
  reflexivity.
Defined.

Lemma missing_region_aborts_without_writing_witness :
  let fs := fsOf (Some priceMarkdown) (Some pageWithoutRegion) true in
  exitCode (run (BuildManifesto.main markedOnPrice) fs) = 1%Z /\
  files_after (run (BuildManifesto.main markedOnPrice) fs) = fs /\
  exitCode (run (BuildFromDocx.main mammothOnFootnote) fs) = 1%Z /\
  files_after (run (BuildFromDocx.main mammothOnFootnote) fs) = fs.
Proof.
  intros fs.
  destruct (missing_region_aborts_without_writing markedOnPrice mammothOnFootnote
              fs pageWithoutRegion eq_refl eq_refl)
    as (H1 & H2 & _ & H3 & _ & H4).
  destruct (H1 priceMarkdown priceHtml eq_refl eq_refl) as [_ E1].
  destruct (H2 priceMarkdown (BuildFromDocx.mkResult footnoteHtml []) eq_refl eq_refl)
    as [_ E2].
  exact (conj E1 (conj H3 (conj E2 H4))).
Defined.

Lemma failures_are_caught_and_logged_witness :
  exitCode (run (BuildManifesto.main markedOnPrice) (fsOf None (Some page) true)) = 0%Z /\
  exitCode (run (BuildFromDocx.main mammothFailing)
              (fsOf (Some docxBytes) (Some page) true)) = 1%Z.
Proof.
  split.
  - destruct (failures_are_caught_and_logged markedOnPrice mammothFailing
                (fsOf None (Some page) true)) as (H & _).
    exact (proj2 (H eq_refl)).
  - destruct (failures_are_caught_and_logged markedOnPrice mammothFailing
                (fsOf (Some docxBytes) (Some page) true)) as (_ & _ & _ & _ & H & _).
    exact (proj2 (H docxBytes _ eq_refl eq_refl)).
Defined.

Lemma missing_source_leaves_template_witness :
  let fs := fsOf None (Some page) true in
  exitCode (run (BuildFromDocx.main mammothOnFootnote) fs) = 1%Z /\
  files_after (run (BuildFromDocx.main mammothOnFootnote) fs) = fs /\
  files_after (run (BuildManifesto.main markedOnPrice) fs) = fs.
Proof.
  intros fs.
  destruct (missing_source_leaves_template markedOnPrice mammothOnFootnote fs eq_refl)
    as (_ & H1 & _ & _ & H2 & _ & H3 & _).
  exact (conj H1 (conj H2 H3)).
Defined.

(** ** Two runs whose output is not what was meant *)

(** C2, at an input where it fails.  The rendered HTML is the replacement
    template of [String.prototype.replace], in which [$$] stands for one
    dollar sign: a paragraph that marked renders with [$$] is written to
    the template with [$], which is not the rendering. *)
Theorem markdown_dollar_pattern_is_rewritten (marked_parse : str -> Exn str) :
  marked_parse priceMarkdown = Ok priceHtml ->
  let o := run (BuildManifesto.main marked_parse)
               (fsOf (Some priceMarkdown) (Some page) true) in
  file (files_after o) IndexPath =
    Some (lit "<html><body><article>" ++ NL ++ lit "<p>Cost: $5</p>" ++ NL ++ NL ++
          lit "</article></body></html>") /\
  file (files_after o) IndexPath <>
    Some (lit "<html><body>" ++ newArticle priceHtml ++ lit "</body></html>") /\
  exitCode o = 0%Z.
Proof.
  intros Hm o. subst o.
  rewrite (md_success marked_parse (fsOf (Some priceMarkdown) (Some page) true)
             priceMarkdown priceHtml page eq_refl Hm eq_refl eq_refl eq_refl).
  split; [ | split ].
  - vm_compute. reflexivity.
  - vm_compute. discriminate.
  - reflexivity.
Qed.

Lemma markdown_dollar_pattern_is_rewritten_witness :
  exitCode (run (BuildManifesto.main markedOnPrice)
              (fsOf (Some priceMarkdown) (Some page) true)) = 0%Z.
Proof.
  exact (proj2 (proj2 (markdown_dollar_pattern_is_rewritten markedOnPrice eq_refl))).
Defined.

(** C1, at an input where it fails.  The citations block is removed after
    the fragment is injected, not before: the first block of the document
    is then the one the normaliser has just made.  The fragment has a
    references container; the written template has none, and the footnotes
    are gone with it. *)
Theorem docx_new_references_are_removed
  (mammoth_convertToHtml :
     BuildFromDocx.Options -> str -> Exn BuildFromDocx.ConversionResult) :
  mammoth_convertToHtml BuildFromDocx.options docxBytes =
    Ok (BuildFromDocx.mkResult footnoteHtml []) ->
  let o := run (BuildFromDocx.main mammoth_convertToHtml)
               (fsOf (Some docxBytes) (Some page) true) in
  includes (BuildFromDocx.normalize footnoteHtml) BuildFromDocx.citationsOpen = true /\
  file (files_after o) IndexPath =
    Some (lit "<html><body><article>" ++ NL ++ BuildFromDocx.bannerHtml ++
          lit "<p>Text<sup><a href=" ++ DQ ++ lit "#footnote-1" ++ DQ ++
          lit " id=" ++ DQ ++ lit "footnote-ref-1" ++ DQ ++ lit ">[1]</a></sup></p>" ++
          NL ++ lit "</article></body></html>") /\
  (forall written, file (files_after o) IndexPath = Some written ->
     includes written BuildFromDocx.citationsOpen = false /\
     includes written (lit "<ol>") = false) /\
  exitCode o = 0%Z.
Proof.
  intros Hm o. subst o.
  rewrite (docx_success mammoth_convertToHtml
             (fsOf (Some docxBytes) (Some page) true) docxBytes _ page
             eq_refl Hm eq_refl eq_refl eq_refl).
  split; [ | split; [ | split ] ].
  - vm_compute. reflexivity.
  - vm_compute. reflexivity.
  - intros written H. vm_compute in H. injection H as <-.
    split; vm_compute; reflexivity.
  - reflexivity.
Qed.

Lemma docx_new_references_are_removed_witness :
  exitCode (run (BuildFromDocx.main mammothOnFootnote)
              (fsOf (Some docxBytes) (Some page) true)) = 0%Z.
Proof.
  exact (proj2 (proj2 (proj2 (docx_new_references_are_removed mammothOnFootnote eq_refl)))).
Defined.

(** ** Patterns that match whole tags *)

Module MarkupFacts.
Import Markup Notions StrFacts RegexFacts.

Lemma render_app ks1 ks2 : render (ks1 ++ ks2) = render ks1 ++ render ks2.
Proof. apply flat_map_app. Qed.

Lemma splitAtFirst_none sel ks :
  splitAtFirst sel ks = None -> keep sel ks = ks /\ filter sel ks = [].
Proof.
  induction ks as [|k ks IH]; simpl; [ easy | ].
  destruct (sel k) eqn:E; [ discriminate | ].
  destruct (splitAtFirst sel ks) as [[[p x] q]|]; [ discriminate | ].
  intros _. destruct (IH eq_refl) as [-> ->]. now split.
Qed.

Lemma splitAtFirst_some sel ks p x q :
  splitAtFirst sel ks = Some (p, x, q) ->
  ks = p ++ x :: q /\ sel x = true /\
  keep sel ks = p ++ keep sel q /\ filter sel ks = x :: filter sel q.
Proof.
  revert p; induction ks as [|k ks IH]; intros p; simpl; [ discriminate | ].
  destruct (sel k) eqn:E.
  - intros H. injection H as <- <- <-. simpl. now rewrite E.
  - destruct (splitAtFirst sel ks) as [[[p' x'] q']|]; [ | discriminate ].
    intros H. injection H as <- <- <-.
    destruct (IH _ eq_refl) as (-> & Hx & Hk & Hf).
    simpl. now rewrite Hk, Hf.
Qed.

Lemma wellFormed_app ks1 ks2 :
  wellFormed (ks1 ++ ks2) = wellFormed ks1 && wellFormed ks2.
Proof. apply forallb_app. Qed.

Lemma wellFormed_keep sel ks : wellFormed ks = true -> wellFormed (keep sel ks) = true.
Proof.
  unfold wellFormed, keep. rewrite !forallb_forall.
  intros H k Hk. apply filter_In in Hk as [Hk _]. now apply H.
Qed.

Lemma keep_idempotent sel ks : keep sel (keep sel ks) = keep sel ks.
Proof.
  unfold keep. induction ks as [|k ks IH]; simpl; [ reflexivity | ].
  destruct (sel k) eqn:E; simpl; [ exact IH | ].
  rewrite E. simpl. now rewrite IH.
Qed.

Lemma no_lt_weaken body :
  forallb (fun c => negb (char_eqb c LT) && negb (char_eqb c GT)) body = true ->
  forallb (fun c => negb (char_eqb c LT)) body = true /\
  forallb (fun c => negb (char_eqb c GT)) body = true.
Proof.
  rewrite !forallb_forall. intros H. split; intros c Hc;
    apply H in Hc; apply andb_true_iff in Hc; tauto.
Qed.

Section TagPattern.

(** A pattern [<...] that, at a tag of well-formed markup, matches the
    whole tag when [sel] selects it and nothing otherwise. *)
Variable r : regex.
Variable sel : token -> bool.
Hypothesis sel_chars : forall t, sel (Chars t) = false.
Hypothesis at_tag :
  forall body rest,
    wf_token (Tag body) = true ->
    matchHere (Lit LT :: r) (render_token (Tag body) ++ rest) =
    if sel (Tag body) then Some (render_token (Tag body)) else None.

Lemma exec_render ks :
  wellFormed ks = true ->
  exec (Lit LT :: r) (render ks) =
  match splitAtFirst sel ks with
  | Some (p, k, q) => Some (render p, render_token k, render q)
  | None => None
  end.
Proof.
  induction ks as [|[t|body] ks IH]; intros Hwf.
  - reflexivity.
  - simpl in Hwf. apply andb_true_iff in Hwf as [Ht Hks].
    change (render (Chars t :: ks)) with (t ++ render ks).
    rewrite (exec_skip_lit LT r t (render ks) Ht), (IH Hks).
    simpl. rewrite sel_chars.
    now destruct (splitAtFirst sel ks) as [[[p x] q]|].
  - pose proof Hwf as Hwf'. simpl in Hwf'.
    apply andb_true_iff in Hwf' as [Hb Hks].
    change (render (Tag body :: ks)) with (render_token (Tag body) ++ render ks).
    pose proof (at_tag body (render ks) Hb) as Hm.
    cbn [splitAtFirst]. destruct (sel (Tag body)) eqn:E.
    + rewrite (exec_here _ _ _ Hm).
      now rewrite skipn_app, skipn_all, Nat.sub_diag.
    + change (render_token (Tag body) ++ render ks)
        with (LT :: (body ++ [GT]) ++ render ks) in *.
      cbn [exec]. rewrite Hm.
      rewrite (exec_skip_lit LT r (body ++ [GT]) (render ks)).
      * rewrite (IH Hks).
        now destruct (splitAtFirst sel ks) as [[[p x] q]|].
      * rewrite forallb_app. destruct (no_lt_weaken body Hb) as [-> _].
        reflexivity.
Qed.

Lemma sel_nonempty k : sel k = true -> exists c m, render_token k = c :: m.
Proof.
  destruct k as [t|body]; [ now rewrite sel_chars | ].
  intros _. now exists LT, (body ++ [GT]).
Qed.

(** Replacing every match by nothing removes the selected tags. *)
Lemma replaceAll_loop_render fuel : forall ks seen,
  wellFormed ks = true ->
  (length (filter sel ks) < fuel)%nat ->
  replaceAll_loop fuel seen (render ks) (Lit LT :: r) [] = render (keep sel ks).
Proof.
  induction fuel as [|fuel IH]; intros ks seen Hwf Hlen; [ lia | ].
  cbn [replaceAll_loop]. rewrite (exec_render ks Hwf).
  destruct (splitAtFirst sel ks) as [[[p k] q]|] eqn:E.
  - destruct (splitAtFirst_some _ _ _ _ _ E) as (Hks & Hk & Hkeep & Hfil).
    destruct (sel_nonempty k Hk) as (c & m & Hr). rewrite Hr.
    cbn [getSubstitution app]. rewrite <- Hr.
    rewrite Hks, wellFormed_app in Hwf. apply andb_true_iff in Hwf as [Hp Hq].
    simpl in Hq. apply andb_true_iff in Hq as [_ Hq].
    rewrite IH; [ | exact Hq | rewrite Hfil in Hlen; simpl in Hlen; lia ].
    now rewrite Hkeep, render_app.
  - destruct (splitAtFirst_none _ _ E) as [-> _]. reflexivity.
Qed.

Lemma filter_length_render ks :
  (length (filter sel ks) <= length (render ks))%nat.
Proof.
  induction ks as [|k ks IH]; simpl; [ lia | ].
  rewrite length_app. destruct (sel k) eqn:E; simpl; [ | lia ].
  destruct (sel_nonempty k E) as (c & m & ->). simpl. lia.
Qed.

Lemma replaceAll_render ks :
  wellFormed ks = true ->
  replaceAll (render ks) (Lit LT :: r) [] = render (keep sel ks).
Proof.
  intros Hwf. unfold replaceAll. apply replaceAll_loop_render; [ exact Hwf | ].
  pose proof (filter_length_render ks). lia.
Qed.

(** The matches are the selected tags, in order. *)
Lemma matchAll_loop_render fuel : forall ks,
  wellFormed ks = true ->
  (length (filter sel ks) < fuel)%nat ->
  matchAll_loop fuel (render ks) (Lit LT :: r) = map render_token (filter sel ks).
Proof.
  induction fuel as [|fuel IH]; intros ks Hwf Hlen; [ lia | ].
  cbn [matchAll_loop]. rewrite (exec_render ks Hwf).
  destruct (splitAtFirst sel ks) as [[[p k] q]|] eqn:E.
  - destruct (splitAtFirst_some _ _ _ _ _ E) as (Hks & Hk & Hkeep & Hfil).
    destruct (sel_nonempty k Hk) as (c & m & Hr). rewrite Hr, <- Hr.
    rewrite Hks, wellFormed_app in Hwf. apply andb_true_iff in Hwf as [Hp Hq].
    simpl in Hq. apply andb_true_iff in Hq as [_ Hq].
    rewrite IH; [ | exact Hq | rewrite Hfil in Hlen; simpl in Hlen; lia ].
    now rewrite Hfil.
  - destruct (splitAtFirst_none _ _ E) as [_ ->]. reflexivity.
Qed.

Lemma matchAll_render ks :
  wellFormed ks = true ->
  matchAll (render ks) (Lit LT :: r) = map render_token (filter sel ks).
Proof.
  intros Hwf. unfold matchAll. apply matchAll_loop_render; [ exact Hwf | ].
  pose proof (filter_length_render ks). lia.
Qed.

End TagPattern.

End MarkupFacts.

(** ** The image patterns on well-formed markup *)

Module ImageFacts.
Import Markup StrFacts RegexFacts MarkupFacts BuildFromDocx.

Lemma startsWith_before_char c t : forall body rest,
  forallb (fun x => negb (char_eqb x c)) t = true ->
  startsWith (body ++ c :: rest) t = startsWith body t.
Proof.
  induction t as [|y t IH]; intros body rest Ht; [ reflexivity | ].
  simpl in Ht. apply andb_true_iff in Ht as [Hy Ht].
  destruct body as [|x body]; simpl.
  - unfold char_eqb in *. rewrite N.eqb_sym.
    destruct (N.eqb y c); [ discriminate | reflexivity ].
  - now rewrite IH.
Qed.

(** A greedy star runs up to the first code unit outside its class when
    what follows matches there. *)
Lemma greedyStar_run k cont c rest m : forall x,
  forallb (cls_mem k) x = true ->
  cls_mem k c = false ->
  cont (c :: rest) = Some m ->
  greedyStar k cont (x ++ c :: rest) = Some (x ++ m).
Proof.
  induction x as [|d x IH]; intros Hx Hc Hm; simpl.
  - now rewrite Hc.
  - simpl in Hx. apply andb_true_iff in Hx as [-> Hx]. now rewrite IH.
Qed.

(** A greedy star before a literal text [pat]: when what follows [pat]
    always runs to the closing code unit, the whole is matched exactly when
    [pat] occurs in the run. *)
Lemma greedyStar_backtrack k cont c rest pat : forall x,
  forallb (cls_mem k) x = true ->
  cls_mem k c = false ->
  (forall u v, x = u ++ v ->
     cont (v ++ c :: rest) = if startsWith v pat then Some (v ++ [c]) else None) ->
  greedyStar k cont (x ++ c :: rest) =
  if includes x pat then Some (x ++ [c]) else None.
Proof.
  induction x as [|d x IH]; intros Hx Hc Hcont.
  - simpl. rewrite Hc, orb_false_r. apply (Hcont [] []). reflexivity.
  - simpl in Hx. apply andb_true_iff in Hx as [Hd Hx].
    cbn [app greedyStar includes]. rewrite Hd.
    rewrite IH; [ | exact Hx | exact Hc | ].
    + destruct (includes x pat).
      * now rewrite orb_true_r.
      * rewrite orb_false_r. apply (Hcont [] (d :: x)). reflexivity.
    + intros u v ->. apply (Hcont (d :: u) v). reflexivity.
Qed.

Lemma imgRegex_eq : imgRegex = Lit LT :: imgTail.
Proof. reflexivity. Qed.

Lemma sentinelImgRegex_eq : sentinelImgRegex = Lit LT :: sentinelTail.
Proof. reflexivity. Qed.

Lemma not_gt_suffix (u v : str) :
  forallb (fun c => negb (char_eqb c GT)) (u ++ v) = true ->
  forallb (cls_mem (NotChar GT)) v = true.
Proof. rewrite forallb_app. intros H. apply andb_true_iff in H. tauto. Qed.

Lemma matchHere_star k r s :
  matchHere (Star k :: r) s = greedyStar k (matchHere r) s.
Proof. reflexivity. Qed.

Lemma close_tag rest : matchHere [Lit GT] (GT :: rest) = Some [GT].
Proof. reflexivity. Qed.

Lemma not_gt_self : cls_mem (NotChar GT) GT = false.
Proof. reflexivity. Qed.

(** [<img[^>]*>] at a tag. *)
Lemma img_at_tag body rest :
  wf_token (Tag body) = true ->
  matchHere (Lit LT :: imgTail) (render_token (Tag body) ++ rest) =
  if isImg (Tag body) then Some (render_token (Tag body)) else None.
Proof.
  intros Hwf. destruct (no_lt_weaken body Hwf) as [_ Hgt].
  change (render_token (Tag body) ++ rest) with (LT :: (body ++ [GT]) ++ rest).
  rewrite <- app_assoc. cbn [matchHere app].
  rewrite char_eqb_refl. unfold imgTail. rewrite matchHere_lits.
  rewrite startsWith_before_char by reflexivity.
  cbn [isImg]. destruct (startsWith body (lit "img")) eqn:E; [ | reflexivity ].
  apply startsWith_iff in E as [body' ->].
  rewrite <- app_assoc, skipn_app, skipn_all, Nat.sub_diag.
  cbn [skipn app]. rewrite matchHere_star.
  rewrite (greedyStar_run (NotChar GT) (matchHere [Lit GT]) GT rest [GT] body'
             (not_gt_suffix _ _ Hgt) not_gt_self (close_tag rest)).
  reflexivity.
Qed.

(** What follows the first star of the sentinel pattern, inside a tag. *)
Lemma sentinel_rest_at v rest :
  forallb (cls_mem (NotChar GT)) v = true ->
  matchHere (map Lit sentinelText ++ [Star (NotChar GT); Lit GT]) (v ++ GT :: rest) =
  if startsWith v sentinelText then Some (v ++ [GT]) else None.
Proof.
  intros Hv. rewrite matchHere_lits.
  rewrite startsWith_before_char by reflexivity.
  destruct (startsWith v sentinelText) eqn:Ev; [ | reflexivity ].
  apply startsWith_iff in Ev as [v' ->].
  rewrite <- app_assoc, skipn_app, skipn_all, Nat.sub_diag.
  cbn [skipn app]. rewrite matchHere_star.
  rewrite forallb_app in Hv. apply andb_true_iff in Hv as [_ Hv'].
  rewrite (greedyStar_run (NotChar GT) (matchHere [Lit GT]) GT rest [GT] v'
             Hv' not_gt_self (close_tag rest)).
  cbn [option_map]. now rewrite <- app_assoc.
Qed.

(** [<img[^>]*class="remove-me"[^>]*>] at a tag. *)
Lemma sentinel_at_tag body rest :
  wf_token (Tag body) = true ->
  matchHere (Lit LT :: sentinelTail) (render_token (Tag body) ++ rest) =
  if isSentinelImg (Tag body) then Some (render_token (Tag body)) else None.
Proof.
  intros Hwf. destruct (no_lt_weaken body Hwf) as [_ Hgt].
  change (render_token (Tag body) ++ rest) with (LT :: (body ++ [GT]) ++ rest).
  rewrite <- app_assoc. cbn [matchHere app].
  rewrite char_eqb_refl. unfold sentinelTail. rewrite matchHere_lits.
  rewrite startsWith_before_char by reflexivity.
  cbn [isSentinelImg]. destruct (startsWith body (lit "img")) eqn:E; [ | reflexivity ].
  apply startsWith_iff in E as [body' ->].
  change (skipn 3 (lit "img" ++ body')) with body'.
  rewrite <- app_assoc, skipn_app, skipn_all, Nat.sub_diag.
  cbn [skipn app andb]. rewrite matchHere_star.
  pose proof (not_gt_suffix _ _ Hgt) as Hb'.
  rewrite (greedyStar_backtrack (NotChar GT) _ GT rest sentinelText body' Hb' not_gt_self).
  - change (lit "class=" ++ 34%N :: lit "remove-me" ++ [34%N]) with sentinelText.
    now destruct (includes body' sentinelText).
  - intros u v Huv. apply sentinel_rest_at.
    rewrite Huv, forallb_app in Hb'. apply andb_true_iff in Hb'. tauto.
Qed.

Lemma isImg_chars t : isImg (Chars t) = false.
Proof. reflexivity. Qed.

Lemma isSentinelImg_chars t : isSentinelImg (Chars t) = false.
Proof. reflexivity. Qed.

(** On well-formed markup the two removals delete the selected tags and
    nothing else. *)
Lemma removeAllImages_render ks :
  wellFormed ks = true ->
  removeAllImages (render ks) = render (keep isImg ks).
Proof.
  intros H. unfold removeAllImages. rewrite imgRegex_eq.
  now apply (replaceAll_render imgTail isImg isImg_chars img_at_tag).
Qed.

Lemma removeSentinelImages_render ks :
  wellFormed ks = true ->
  removeSentinelImages (render ks) = render (keep isSentinelImg ks).
Proof.
  intros H. unfold removeSentinelImages. rewrite sentinelImgRegex_eq.
  now apply (replaceAll_render sentinelTail isSentinelImg isSentinelImg_chars
               sentinel_at_tag).
Qed.

Lemma images_render ks :
  wellFormed ks = true ->
  matchAll (render ks) imgRegex = map render_token (filter isImg ks).
Proof.
  intros H. rewrite imgRegex_eq.
  now apply (matchAll_render imgTail isImg isImg_chars img_at_tag).
Qed.

Lemma filter_keep_nil (sel : token -> bool) ks : filter sel (keep sel ks) = [].
Proof.
  unfold keep. induction ks as [|k ks IH]; simpl; [ reflexivity | ].
  destruct (sel k) eqn:E; simpl; [ exact IH | now rewrite E ].
Qed.

End ImageFacts.

(** ** Footnote wrapping *)

Module FootnoteFacts.
Import StrFacts RegexFacts BuildFromDocx.

Lemma substring_split (s : str) (i : Z) :
  substring s 0 (Some i) ++ substring s i None = s.
Proof.
  unfold substring, clamp. simpl Z.to_nat. rewrite Nat.min_0_l.
  set (n := Nat.min (Z.to_nat i) (length s)).
  rewrite Nat.min_0_l, Nat.max_0_l, Nat.sub_0_r.
  assert (Hn : (n <= length s)%nat) by (subst n; lia).
  rewrite Nat.min_l, Nat.max_r by exact Hn.
  cbn [skipn].
  rewrite (firstn_all2 (skipn n s)) by (rewrite length_skipn; lia).
  apply firstn_skipn.
Qed.

Lemma substring_from (s : str) (n : nat) :
  (n <= length s)%nat -> substring s (Z.of_nat n) None = skipn n s.
Proof.
  intros Hn. unfold substring, clamp. rewrite Nat2Z.id.
  rewrite (Nat.min_l n) by exact Hn.
  rewrite Nat.min_l, Nat.max_r by exact Hn.
  apply firstn_all2. rewrite length_skipn. lia.
Qed.

Lemma substring_upto (s : str) (n : nat) :
  (n <= length s)%nat -> substring s 0 (Some (Z.of_nat n)) = firstn n s.
Proof.
  intros Hn. unfold substring, clamp. rewrite Nat2Z.id. simpl Z.to_nat.
  rewrite Nat.min_0_l, (Nat.min_l n) by exact Hn.
  now rewrite Nat.min_0_l, Nat.max_0_l, Nat.sub_0_r.
Qed.

(** [lastIndexOf] gives the last place where the text occurs. *)
Lemma lastIndexOf_from_spec (t : str) : t <> [] -> forall (s : str) (i : Z),
  (0 <= i)%Z ->
  (lastIndexOf_from i s t = (-1)%Z /\ includes s t = false) \/
  (exists n, lastIndexOf_from i s t = (i + Z.of_nat n)%Z /\
             (n <= length s)%nat /\
             startsWith (skipn n s) t = true /\
             includes (skipn (S n) s) t = false).
Proof.
  intros Ht. induction s as [|c s IH]; intros i Hi.
  - left. destruct t as [|y t]; [ congruence | ]. now split.
  - cbn [lastIndexOf_from].
    destruct (IH (i + 1)%Z ltac:(lia)) as [[E Hinc] | (n & E & Hn & Hs & Hl)].
    + rewrite E. simpl Z.eqb. cbv iota.
      destruct (startsWith (c :: s) t) eqn:Es.
      * right. exists 0%nat. rewrite Z.add_0_r. repeat split; simpl; try lia; assumption.
      * left. split; [ reflexivity | ]. cbn [includes]. now rewrite Es, Hinc.
    + rewrite E. destruct (i + 1 + Z.of_nat n =? -1)%Z eqn:Eq.
      * apply Z.eqb_eq in Eq. lia.
      * right. exists (S n). repeat split; simpl; try lia; assumption.
Qed.

Lemma forallb_reverse (f : char -> bool) (w : str) :
  forallb f (rev w) = forallb f w.
Proof.
  induction w as [|c w IH]; simpl; [ reflexivity | ].
  rewrite forallb_app, IH. simpl. rewrite andb_true_r. apply andb_comm.
Qed.

Lemma trimStart_ws (w s : str) :
  forallb isWhiteSpace w = true -> trimStart (w ++ s) = trimStart s.
Proof.
  induction w as [|c w IH]; simpl; [ reflexivity | ].
  intros H. apply andb_true_iff in H as [-> H]. now apply IH.
Qed.

Lemma trimStart_keeps (y : str) (c : char) (u : str) :
  isWhiteSpace c = false -> exists z, trimStart (y ++ c :: u) = z ++ c :: u.
Proof.
  intros Hc. induction y as [|d y [z IH]]; simpl.
  - rewrite Hc. now exists [].
  - destruct (isWhiteSpace d).
    + now exists z.
    + now exists (d :: y).
Qed.

(** Trimming keeps a text that starts and ends with a code unit that is
    not white space, when only white space follows it. *)
Lemma trim_keeps (y : str) (c : char) (mid : str) (l : char) (w : str) :
  isWhiteSpace c = false -> isWhiteSpace l = false ->
  forallb isWhiteSpace w = true ->
  exists z, trim (y ++ (c :: mid ++ [l]) ++ w) = z ++ c :: mid ++ [l].
Proof.
  intros Hc Hl Hw. unfold trim, trimEnd.
  cbn [app]. rewrite <- app_assoc.
  destruct (trimStart_keeps y c (mid ++ [l] ++ w) Hc) as [z ->].
  exists z.
  replace (z ++ c :: mid ++ [l] ++ w) with ((z ++ c :: mid) ++ [l] ++ w)
    by now rewrite <- app_assoc.
  rewrite !rev_app_distr. rewrite <- app_assoc.
  rewrite trimStart_ws by (now rewrite forallb_reverse).
  cbn [rev app trimStart]. rewrite Hl.
  cbn [rev]. rewrite !rev_app_distr, !rev_involutive.
  cbn [rev app]. now rewrite <- !app_assoc.
Qed.

Lemma str_eqb_refl (a : str) : str_eqb a a = true.
Proof. now apply str_eqb_eq. Qed.

Lemma endsWith_app (z u t : str) :
  (length t <= length u)%nat -> endsWith (z ++ u) t = endsWith u t.
Proof.
  intros H. unfold endsWith. rewrite length_app.
  replace (length t <=? length z + length u)%nat with true
    by (symmetry; apply Nat.leb_le; lia).
  replace (length t <=? length u)%nat with true
    by (symmetry; apply Nat.leb_le; lia).
  replace (length z + length u - length t)%nat
    with (length z + (length u - length t))%nat by lia.
  rewrite skipn_app.
  replace (length z + (length u - length t) - length z)%nat
    with (length u - length t)%nat by lia.
  rewrite skipn_all2 by lia. reflexivity.
Qed.

(** What a lazy star consumed, and what followed. *)
Lemma lazyStar_sound k cont : forall s m,
  lazyStar k cont s = Some m ->
  exists x s' m', s = x ++ s' /\ cont s' = Some m' /\ m = x ++ m'.
Proof.
  induction s as [|c s IH]; intros m; simpl.
  - destruct (cont []) as [m'|] eqn:E; [ | discriminate ].
    intros H. injection H as <-. now exists [], [], m'.
  - destruct (cont (c :: s)) as [m'|] eqn:E.
    + intros H. injection H as <-. now exists [], (c :: s), m'.
    + destruct (cls_mem k c); [ | discriminate ].
      destruct (lazyStar k cont s) as [m1|]; [ | discriminate ].
      simpl. intros H. injection H as <-.
      destruct (IH _ eq_refl) as (x & s' & m' & -> & Hc & ->).
      now exists (c :: x), s', m'.
Qed.

(** What a greedy star consumed, and what followed. *)
Lemma greedyStar_sound k cont : forall s m,
  greedyStar k cont s = Some m ->
  exists x s' m', s = x ++ s' /\ forallb (cls_mem k) x = true /\
                  cont s' = Some m' /\ m = x ++ m'.
Proof.
  induction s as [|c s IH]; intros m; simpl.
  - intros H. now exists [], [], m.
  - destruct (cls_mem k c) eqn:Ec.
    + destruct (greedyStar k cont s) as [m1|].
      * intros H. injection H as <-.
        destruct (IH _ eq_refl) as (x & s' & m' & -> & Hx & Hc & ->).
        exists (c :: x), s', m'. simpl. now rewrite Ec, Hx.
      * intros H. now exists [], (c :: s), m.
    + intros H. now exists [], (c :: s), m.
Qed.

(** A match of [/<ol>[\s\S]*?<\/ol>\s*$/] runs to the end of the subject,
    which ends with [</ol>] and white space. *)
Lemma trailingOl_sound h b m a :
  exec trailingOlRegex h = Some (b, m, a) ->
  exists x w, h = (b ++ lit "<ol>" ++ x) ++ lit "</ol>" ++ w /\
              forallb isWhiteSpace w = true.
Proof.
  intros H. destruct (exec_sound _ _ _ _ _ H) as [Hh Hm]. clear H.
  unfold trailingOlRegex, lits in Hm. rewrite matchHere_lits in Hm.
  destruct (startsWith (m ++ a) (lit "<ol>")) eqn:E1; [ | discriminate ].
  apply startsWith_iff in E1 as [s1 E1]. rewrite E1 in Hm.
  rewrite skipn_app, skipn_all, Nat.sub_diag in Hm. cbn [skipn app] in Hm.
  destruct (matchHere _ s1) as [m1|] eqn:Hm1; [ | discriminate ]. clear Hm.
  change (matchHere
            ([StarLazy AnyChar] ++ map Lit (lit "</ol>") ++ [Star Space; EndOfInput]) s1)
    with (lazyStar AnyChar
            (matchHere (map Lit (lit "</ol>") ++ [Star Space; EndOfInput])) s1)
    in Hm1.
  apply lazyStar_sound in Hm1 as (x & s2 & m2 & -> & Hm2 & _).
  rewrite matchHere_lits in Hm2.
  destruct (startsWith s2 (lit "</ol>")) eqn:E2; [ | discriminate ].
  apply startsWith_iff in E2 as [s3 ->].
  rewrite skipn_app, skipn_all, Nat.sub_diag in Hm2. cbn [skipn app] in Hm2.
  destruct (matchHere _ s3) as [m3|] eqn:Hm3; [ | discriminate ]. clear Hm2.
  change (matchHere [Star Space; EndOfInput] s3)
    with (greedyStar Space (matchHere [EndOfInput]) s3) in Hm3.
  apply greedyStar_sound in Hm3 as (w & s4 & m4 & -> & Hw & Hm4 & _).
  destruct s4; [ | discriminate ].
  exists x, w. split; [ | exact Hw ].
  rewrite Hh, E1, app_nil_r. now rewrite <- !app_assoc.
Qed.

(** The second branch of step 3 never finds a list: where the pattern
    matches, the trimmed fragment ends with [</ol>] and the first branch is
    taken. *)
Lemma trailingOl_branch_is_dead h :
  endsWith (trim h) (lit "</ol>") = false ->
  match0 trailingOlRegex h = None.
Proof.
  intros He. unfold match0.
  destruct (exec trailingOlRegex h) as [[[b m] a]|] eqn:E; [ | reflexivity ].
  destruct (trailingOl_sound _ _ _ _ E) as (x & w & Hh & Hw).
  destruct (trim_keeps (b ++ lit "<ol>" ++ x) 60%N (lit "/ol") 62%N w
              eq_refl eq_refl Hw) as [z Hz].
  change (60%N :: lit "/ol" ++ [62%N]) with (lit "</ol>") in Hz.
  rewrite <- Hh in Hz. rewrite Hz in He.
  rewrite endsWith_app in He by (simpl; lia). discriminate.
Qed.

(** A wrapped fragment ends with [</div>], not with [</ol>]. *)
Lemma wrapped_not_trailing_ol before footnotes :
  endsWith (trim (wrapped before footnotes)) (lit "</ol>") = false.
Proof.
  unfold wrapped, citationsClose.
  destruct (trim_keeps (before ++ citationsOpen ++ footnotes ++ NL)
              60%N (lit "/div") 62%N [] eq_refl eq_refl eq_refl) as [z Hz].
  change (60%N :: lit "/div" ++ [62%N]) with (lit "</div>") in Hz.
  rewrite app_nil_r in Hz.
  replace (before ++ citationsOpen ++ footnotes ++ NL ++ lit "</div>")
    with ((before ++ citationsOpen ++ footnotes ++ NL) ++ lit "</div>")
    by now rewrite <- !app_assoc.
  rewrite Hz. rewrite endsWith_app by (simpl; lia). reflexivity.
Qed.

(** Step 3 does one of two things. *)
Lemma wrapFootnotes_cases h :
  wrapFootnotes h = h \/
  exists before footnotes, wrapFootnotes h = wrapped before footnotes.
Proof.
  unfold wrapFootnotes.
  destruct (endsWith (trim h) (lit "</ol>")) eqn:E.
  - destruct (negb _); [ | now left ].
    destruct (hasFootnoteMarker _); [ | now left ].
    right. eexists _, _. reflexivity.
  - rewrite (trailingOl_branch_is_dead h E). now left.
Qed.

Lemma wrapFootnotes_wrapped before footnotes :
  wrapFootnotes (wrapped before footnotes) = wrapped before footnotes.
Proof.
  unfold wrapFootnotes.
  rewrite (wrapped_not_trailing_ol before footnotes).
  now rewrite (trailingOl_branch_is_dead _ (wrapped_not_trailing_ol before footnotes)).
Qed.

Lemma wrapFootnotes_idempotent h :
  wrapFootnotes (wrapFootnotes h) = wrapFootnotes h.
Proof.
  destruct (wrapFootnotes_cases h) as [E | (b & f & E)]; rewrite E.
  - exact E.
  - apply wrapFootnotes_wrapped.
Qed.

End FootnoteFacts.

(** ** The normaliser *)

Import Markup StrFacts RegexFacts MarkupFacts ImageFacts FootnoteFacts BuildFromDocx.

(** C5, as the code has it.  Take a fragment that ends with [</ol>] and
    white space only after it, and that has an [<ol>] tag.  Step 3 splits
    it at the last [<ol>] tag: what it tests and wraps is the text from
    there to the end, which with nested lists is the last inner list and
    what follows it, not the list that closes the fragment.  When
    [footnote-] or the up arrow occurs in that text, step 3 puts the text
    in the citations container under the References heading; when neither
    occurs, step 3 changes nothing. *)
Theorem text_from_last_ol_is_wrapped (h : str) :
  (exists y w, h = y ++ lit "</ol>" ++ w /\ forallb isWhiteSpace w = true) ->
  occursIn (lit "<ol>") h ->
  exists before rest,
    h = before ++ lit "<ol>" ++ rest /\
    ~ occursIn (lit "<ol>") rest /\
    (occursIn (lit "footnote-") (lit "<ol>" ++ rest) \/
     occursIn [8593%N] (lit "<ol>" ++ rest) ->
     wrapFootnotes h =
       before ++
       (lit "<div class=" ++ DQ ++ lit "citations" ++ DQ ++ lit ">" ++ NL ++
        lit "<h2>References</h2>" ++ NL) ++
       (lit "<ol>" ++ rest) ++ NL ++ lit "</div>") /\
    (~ occursIn (lit "footnote-") (lit "<ol>" ++ rest) ->
     ~ occursIn [8593%N] (lit "<ol>" ++ rest) ->
     wrapFootnotes h = h).
Proof.
  intros (y & w & Hy & Hw) Hol.
  assert (Hend : endsWith (trim h) (lit "</ol>") = true).
  { destruct (trim_keeps y 60%N (lit "/ol") 62%N w eq_refl eq_refl Hw) as [z Hz].
    change (60%N :: lit "/ol" ++ [62%N]) with (lit "</ol>") in Hz.
    rewrite <- Hy in Hz. rewrite Hz.
    rewrite endsWith_app by (simpl; lia). reflexivity. }
  destruct (lastIndexOf_from_spec (lit "<ol>") ltac:(discriminate) h 0%Z ltac:(lia))
    as [[_ Hinc] | (n & E & Hn & Hs & Hl)].
  { apply includes_iff in Hol. congruence. }
  fold (lastIndexOf h (lit "<ol>")) in E. rewrite Z.add_0_l in E.
  apply startsWith_iff in Hs as [rest Hrest].
  assert (Hwrap : wrapFootnotes h =
                  if hasFootnoteMarker (lit "<ol>" ++ rest)
                  then firstn n h ++ citationsOpen ++ (lit "<ol>" ++ rest) ++ citationsClose
                  else h).
  { unfold wrapFootnotes. rewrite Hend, E.
    replace (Z.of_nat n =? -1)%Z with false by (symmetry; apply Z.eqb_neq; lia).
    cbn [negb]. now rewrite (substring_from h n Hn), (substring_upto h n Hn), Hrest. }
  exists (firstn n h), rest. split; [ | split; [ | split ] ].
  - rewrite <- Hrest. symmetry. apply firstn_skipn.
  - intros Hr. apply includes_iff in Hr.
    change (S n) with (1 + n)%nat in Hl. rewrite <- skipn_skipn, Hrest in Hl.
    change (skipn 1 (lit "<ol>" ++ rest)) with (lit "ol>" ++ rest) in Hl.
    rewrite (includes_app_r (lit "ol>") _ _ Hr) in Hl. discriminate.
  - intros Hm. rewrite Hwrap.
    replace (hasFootnoteMarker (lit "<ol>" ++ rest)) with true; [ reflexivity | ].
    symmetry. unfold hasFootnoteMarker. apply orb_true_iff.
    destruct Hm as [Hm | Hm]; [ left | right ]; now apply includes_iff.
  - intros Hno1 Hno2. rewrite Hwrap.
    replace (hasFootnoteMarker (lit "<ol>" ++ rest)) with false; [ reflexivity | ].
    symmetry. unfold hasFootnoteMarker. apply orb_false_iff.
    split; apply not_true_is_false; intros Hinc; apply includes_iff in Hinc; tauto.
Qed.

Lemma text_from_last_ol_is_wrapped_witness :
  exists before rest,
    footnoteHtml = before ++ lit "<ol>" ++ rest /\
    ~ occursIn (lit "<ol>") rest /\
    (occursIn (lit "footnote-") (lit "<ol>" ++ rest) \/
     occursIn [8593%N] (lit "<ol>" ++ rest) ->
     wrapFootnotes footnoteHtml =
       before ++
       (lit "<div class=" ++ DQ ++ lit "citations" ++ DQ ++ lit ">" ++ NL ++
        lit "<h2>References</h2>" ++ NL) ++
       (lit "<ol>" ++ rest) ++ NL ++ lit "</div>") /\
    (~ occursIn (lit "footnote-") (lit "<ol>" ++ rest) ->
     ~ occursIn [8593%N] (lit "<ol>" ++ rest) ->
     wrapFootnotes footnoteHtml = footnoteHtml).
Proof.
  apply (text_from_last_ol_is_wrapped footnoteHtml).
  - exists (firstn (length footnoteHtml - 5) footnoteHtml), []. split; reflexivity.
  - exists (firstn (Z.to_nat (indexOf footnoteHtml (lit "<ol>"))) footnoteHtml),
           (skipn (Z.to_nat (indexOf footnoteHtml (lit "<ol>")) + 4) footnoteHtml).
    reflexivity.
Defined.

(** C5 as stated fails on nested lists.  The fragment below ends with an
    ordered list that has a footnote marker, but the text from the last
    [<ol>] tag, the inner list and what follows it, has none: nothing is
    wrapped.  With a back link after the inner list the marker is found,
    and the container opens at the inner list, inside the trailing one. *)
Lemma trailing_list_with_marker_is_not_wrapped :
  nestedFootnotes = lit "<p>x</p>" ++ nestedList /\
  startsWith nestedList (lit "<ol>") = true /\
  endsWith nestedList (lit "</ol>") = true /\
  includes nestedList (lit "footnote-") = true /\
  wrapFootnotes nestedFootnotes = nestedFootnotes /\
  wrapFootnotes (lit "<p>x</p>" ++ nestedListWithBackLink) =
    lit "<p>x</p><ol><li id=" ++ DQ ++ lit "footnote-1" ++ DQ ++ lit ">a" ++
    citationsOpen ++
    lit "<ol><li>inner</li></ol> <a href=" ++ DQ ++ lit "#footnote-ref-1" ++ DQ ++
    lit ">" ++ upArrow ++ lit "</a></li></ol>" ++ citationsClose.
Proof.
  repeat split; vm_compute; reflexivity.
Qed.

Lemma bannerHtml_length : (0 < length bannerHtml)%nat.
Proof. apply Nat.ltb_lt. reflexivity. Qed.

(** C8, as the code has it.  Footnote wrapping is idempotent on every
    fragment.  The two image removals are idempotent on well-formed markup,
    where they delete whole tags.  The banner is prepended at every
    application: twice gives two banners. *)
Theorem normalizer_steps_applied_twice :
  (forall h, wrapFootnotes (wrapFootnotes h) = wrapFootnotes h) /\
  (forall ks, wellFormed ks = true ->
     removeSentinelImages (removeSentinelImages (render ks)) =
     removeSentinelImages (render ks)) /\
  (forall ks, wellFormed ks = true ->
     removeAllImages (removeAllImages (render ks)) = removeAllImages (render ks)) /\
  (forall h, prependBanner (prependBanner h) = bannerHtml ++ bannerHtml ++ h /\
             prependBanner (prependBanner h) <> prependBanner h).
Proof.
  split; [ | split; [ | split ] ].
  - exact wrapFootnotes_idempotent.
  - intros ks Hwf. rewrite (removeSentinelImages_render ks Hwf).
    rewrite (removeSentinelImages_render _ (wellFormed_keep isSentinelImg ks Hwf)).
    now rewrite keep_idempotent.
  - intros ks Hwf. rewrite (removeAllImages_render ks Hwf).
    rewrite (removeAllImages_render _ (wellFormed_keep isImg ks Hwf)).
    now rewrite keep_idempotent.
  - intros h. split; [ reflexivity | ].
    unfold prependBanner. intros H. apply (f_equal (@length char)) in H.
    rewrite !length_app in H. pose proof bannerHtml_length. lia.
Qed.

Lemma normalizer_steps_applied_twice_witness :
  removeAllImages (removeAllImages (render sampleMarkup)) =
  removeAllImages (render sampleMarkup).
Proof.
  destruct normalizer_steps_applied_twice as (_ & _ & H & _).
  apply (H sampleMarkup). reflexivity.
Defined.

(** C8 as stated fails: a second banner prepend adds a second banner, and
    on text where removing a tag brings the pieces of another one together
    the removals find a tag to delete the second time. *)
Lemma normalizer_steps_not_idempotent :
  prependBanner (prependBanner (lit "<p>Hi</p>")) <> prependBanner (lit "<p>Hi</p>") /\
  removeAllImages (lit "<im<img>g>") = lit "<img>" /\
  removeAllImages (removeAllImages (lit "<im<img>g>")) <>
    removeAllImages (lit "<im<img>g>") /\
  removeSentinelImages
    (removeSentinelImages
       (lit "<im<img class=" ++ DQ ++ lit "remove-me" ++ DQ ++ lit ">g class=" ++
        DQ ++ lit "remove-me" ++ DQ ++ lit ">")) <>
  removeSentinelImages
    (lit "<im<img class=" ++ DQ ++ lit "remove-me" ++ DQ ++ lit ">g class=" ++
     DQ ++ lit "remove-me" ++ DQ ++ lit ">").
Proof.
  repeat split; vm_compute; discriminate.
Qed.

(** *** The normalised fragment as markup *)

Lemma bannerHtml_tokens : bannerHtml = render [bannerToken; Chars NL].
Proof. reflexivity. Qed.

Lemma citationsOpen_tokens : citationsOpen = render citationsOpenTokens.
Proof. reflexivity. Qed.

Lemma citationsClose_tokens : citationsClose = render citationsCloseTokens.
Proof. reflexivity. Qed.

(** Text without [c] before the first [c] of a text is a prefix of what is
    before that [c]. *)
Lemma split_at_char (c : char) : forall (t x u y : str),
  forallb (fun d => negb (char_eqb d c)) t = true ->
  t ++ x = u ++ c :: y ->
  exists u', u = t ++ u' /\ x = u' ++ c :: y.
Proof.
  induction t as [|d t IH]; intros x u y Ht H.
  - now exists u.
  - simpl in Ht. apply andb_true_iff in Ht as [Hd Ht].
    destruct u as [|e u]; simpl in H; injection H as -> H.
    + rewrite char_eqb_refl in Hd. discriminate.
    + destruct (IH _ _ _ Ht H) as (u' & -> & ->). now exists u'.
Qed.

(** Two texts without [c], each followed by [c], are the same when the
    wholes are. *)
Lemma same_before_char (c : char) : forall (b1 b2 r1 r2 : str),
  forallb (fun d => negb (char_eqb d c)) b1 = true ->
  forallb (fun d => negb (char_eqb d c)) b2 = true ->
  b1 ++ c :: r1 = b2 ++ c :: r2 ->
  b1 = b2 /\ r1 = r2.
Proof.
  induction b1 as [|d b1 IH]; intros b2 r1 r2 H1 H2 H.
  - destruct b2 as [|e b2]; simpl in H.
    + injection H as ->. now split.
    + injection H as <- _. simpl in H2. rewrite char_eqb_refl in H2. discriminate.
  - destruct b2 as [|e b2]; simpl in H.
    + injection H as -> _. simpl in H1. rewrite char_eqb_refl in H1. discriminate.
    + injection H as -> E. simpl in H1, H2.
      apply andb_true_iff in H1 as [_ H1]. apply andb_true_iff in H2 as [_ H2].
      destruct (IH _ _ _ H1 H2 E) as [-> ->]. now split.
Qed.

(** In well-formed markup a tag is found at a token only. *)
Lemma tag_occurs_at_token (body : str) :
  wf_token (Tag body) = true ->
  forall ks u v,
    wellFormed ks = true ->
    render ks = u ++ render_token (Tag body) ++ v ->
    exists p q, ks = p ++ Tag body :: q /\ u = render p /\ v = render q.
Proof.
  intros Hbody. destruct (no_lt_weaken body Hbody) as [_ Hbgt].
  induction ks as [|[t|b] ks IH]; intros u v Hwf H.
  - destruct u; discriminate.
  - simpl in Hwf. apply andb_true_iff in Hwf as [Ht Hks].
    change (render (Chars t :: ks)) with (t ++ render ks) in H.
    change (render_token (Tag body) ++ v) with (LT :: (body ++ [GT]) ++ v) in H.
    destruct (split_at_char LT t _ _ _ Ht H) as (u' & -> & H').
    destruct (IH u' v Hks H') as (p & q & -> & -> & ->).
    now exists (Chars t :: p), q.
  - pose proof Hwf as Hwf'. simpl in Hwf'. apply andb_true_iff in Hwf' as [Hb Hks].
    destruct (no_lt_weaken b Hb) as [Hblt Hbgt'].
    change (render (Tag b :: ks)) with (LT :: (b ++ [GT]) ++ render ks) in H.
    change (render_token (Tag body) ++ v) with (LT :: (body ++ [GT]) ++ v) in H.
    destruct u as [|e u]; simpl in H.
    + injection H as H. rewrite <- !app_assoc in H. simpl in H.
      destruct (same_before_char GT _ _ _ _ Hbgt' Hbgt H) as [-> Hv].
      now exists [], ks.
    + injection H as <- H.
      assert (Hlt : forallb (fun d => negb (char_eqb d LT)) (b ++ [GT]) = true)
        by (rewrite forallb_app, Hblt; reflexivity).
      destruct (split_at_char LT (b ++ [GT]) _ _ _ Hlt H) as (u' & -> & H').
      destruct (IH u' v Hks H') as (p & q & -> & -> & ->).
      now exists (Tag b :: p), q.
Qed.

(** Step 3 on well-formed markup: nothing, or the container's tokens
    around the tokens from an [<ol>] tag on. *)
Lemma wrapFootnotes_render ks :
  wellFormed ks = true ->
  wrapFootnotes (render ks) = render ks \/
  exists p q,
    ks = p ++ Tag (lit "ol") :: q /\
    wrapFootnotes (render ks) =
      render (p ++ citationsOpenTokens ++ (Tag (lit "ol") :: q) ++ citationsCloseTokens).
Proof.
  intros Hwf. unfold wrapFootnotes.
  destruct (endsWith (trim (render ks)) (lit "</ol>")) eqn:Hend;
    [ | rewrite (trailingOl_branch_is_dead _ Hend); now left ].
  destruct (lastIndexOf_from_spec (lit "<ol>") ltac:(discriminate) (render ks) 0%Z
              ltac:(lia)) as [[E _] | (n & E & Hn & Hs & Hl)].
  - fold (lastIndexOf (render ks) (lit "<ol>")) in E. rewrite E. now left.
  - fold (lastIndexOf (render ks) (lit "<ol>")) in E. rewrite Z.add_0_l in E.
    rewrite E.
    replace (Z.of_nat n =? -1)%Z with false by (symmetry; apply Z.eqb_neq; lia).
    cbn [negb]. rewrite (substring_from _ n Hn), (substring_upto _ n Hn).
    destruct (hasFootnoteMarker (skipn n (render ks))); [ | now left ].
    right. apply startsWith_iff in Hs as [v Hv].
    assert (H : render ks = firstn n (render ks) ++ render_token (Tag (lit "ol")) ++ v).
    { rewrite <- (firstn_skipn n (render ks)) at 1. now rewrite Hv. }
    destruct (tag_occurs_at_token (lit "ol") eq_refl ks _ _ Hwf H)
      as (p & q & Hks & Hp & Hq).
    exists p, q. split; [ exact Hks | ].
    rewrite Hp, Hv, Hq. rewrite !render_app.
    now rewrite citationsOpen_tokens, citationsClose_tokens.
Qed.

(** The image tags of the normalised fragment are those before step 3. *)
Lemma wrapFootnotes_images ks :
  wellFormed ks = true ->
  exists ks',
    wrapFootnotes (render ks) = render ks' /\
    wellFormed ks' = true /\
    filter isImg ks' = filter isImg ks /\
    (forall k1 k2 rest,
       ks = k1 :: k2 :: rest ->
       k1 <> Tag (lit "ol") -> k2 <> Tag (lit "ol") ->
       exists rest', ks' = k1 :: k2 :: rest').
Proof.
  intros Hwf. destruct (wrapFootnotes_render ks Hwf) as [E | (p & q & Hks & E)].
  - exists ks. repeat split; try assumption. intros k1 k2 rest -> _ _. now exists rest.
  - eexists. split; [ exact E | ].
    rewrite Hks in Hwf. rewrite wellFormed_app in Hwf.
    apply andb_true_iff in Hwf as [Hp Hq].
    split; [ | split ].
    + rewrite !wellFormed_app, Hp. cbn [andb].
      change (wellFormed citationsOpenTokens) with true.
      change (wellFormed citationsCloseTokens) with true.
      now rewrite Hq.
    + rewrite Hks, !filter_app.
      change (filter isImg citationsOpenTokens) with (@nil token).
      change (filter isImg citationsCloseTokens) with (@nil token).
      now rewrite app_nil_r.
    + intros k1 k2 rest Hk H1 H2. rewrite Hk in Hks.
      destruct p as [|p1 [|p2 p]]; simpl in Hks.
      * injection Hks as Hk1 _. contradiction.
      * injection Hks as _ Hk2 _. contradiction.
      * injection Hks as -> -> _. eexists. reflexivity.
Qed.

Lemma images_of_banner_markup ks :
  wellFormed ks = true ->
  filter isImg ks = [] ->
  let ks3 := bannerToken :: Chars NL :: ks in
  wellFormed ks3 = true /\ filter isImg ks3 = [bannerToken].
Proof.
  intros Hwf Hno ks3. subst ks3. split.
  - change (wellFormed (bannerToken :: Chars NL :: ks))
      with (wf_token bannerToken && (wf_token (Chars NL) && wellFormed ks)).
    rewrite Hwf. reflexivity.
  - change (filter isImg (bannerToken :: Chars NL :: ks))
      with (if isImg bannerToken then bannerToken :: filter isImg ks
            else filter isImg ks).
    rewrite Hno. reflexivity.
Qed.

Lemma banner_is_not_ol : bannerToken <> Tag (lit "ol").
Proof. discriminate. Qed.

Lemma newline_is_not_ol : Chars NL <> Tag (lit "ol").
Proof. discriminate. Qed.

(** C4. On a fragment as mammoth writes it (well-formed markup), steps 1
    and 2 leave no image tag of the document and put the banner first: the
    fragment has the banner as its only image tag, at index 0.  Step 3
    changes none of this. *)
Theorem normalized_fragment_has_only_the_banner (ks : list token) :
  wellFormed ks = true ->
  let stripped := removeAllImages (removeSentinelImages (render ks)) in
  let banner := render_token bannerToken in
  matchAll stripped imgRegex = [] /\
  normalizeImages (render ks) = bannerHtml ++ stripped /\
  matchAll (normalizeImages (render ks)) imgRegex = [banner] /\
  exec imgRegex (normalizeImages (render ks)) = Some ([], banner, NL ++ stripped) /\
  startsWith (normalize (render ks)) bannerHtml = true /\
  matchAll (normalize (render ks)) imgRegex = [banner] /\
  (exists rest, exec imgRegex (normalize (render ks)) = Some ([], banner, rest)).
Proof.
  intros Hwf stripped banner. subst stripped banner.
  rewrite (removeSentinelImages_render ks Hwf).
  pose proof (wellFormed_keep isSentinelImg ks Hwf) as Hwf1.
  rewrite (removeAllImages_render _ Hwf1).
  set (ks2 := keep isImg (keep isSentinelImg ks)).
  pose proof (wellFormed_keep isImg _ Hwf1) as Hwf2. fold ks2 in Hwf2.
  pose proof (filter_keep_nil isImg (keep isSentinelImg ks)) as Hno. fold ks2 in Hno.
  destruct (images_of_banner_markup ks2 Hwf2 Hno) as [Hwf3 Himg3].
  assert (Hn : normalizeImages (render ks) = render (bannerToken :: Chars NL :: ks2)).
  { unfold normalizeImages, prependBanner.
    rewrite (removeSentinelImages_render ks Hwf), (removeAllImages_render _ Hwf1).
    reflexivity. }
  split; [ | split; [ | split; [ | split; [ | split; [ | split ] ] ] ] ].
  - rewrite (images_render ks2 Hwf2). now rewrite Hno.
  - rewrite Hn. reflexivity.
  - rewrite Hn, (images_render _ Hwf3). now rewrite Himg3.
  - rewrite Hn, imgRegex_eq.
    rewrite (exec_render imgTail isImg isImg_chars img_at_tag _ Hwf3).
    reflexivity.
  - unfold normalize. rewrite Hn.
    destruct (wrapFootnotes_images _ Hwf3) as (ks' & -> & _ & _ & Hhead).
    destruct (Hhead _ _ _ eq_refl banner_is_not_ol newline_is_not_ol) as [rest' ->].
    change (render (bannerToken :: Chars NL :: rest')) with (bannerHtml ++ render rest').
    apply startsWith_app.
  - unfold normalize. rewrite Hn.
    destruct (wrapFootnotes_images _ Hwf3) as (ks' & -> & Hwf' & Himg' & _).
    rewrite (images_render _ Hwf'). now rewrite Himg', Himg3.
  - unfold normalize. rewrite Hn.
    destruct (wrapFootnotes_images _ Hwf3) as (ks' & -> & Hwf' & _ & Hhead).
    destruct (Hhead _ _ _ eq_refl banner_is_not_ol newline_is_not_ol) as [rest' ->].
    exists (render (Chars NL :: rest')). rewrite imgRegex_eq.
    rewrite (exec_render imgTail isImg isImg_chars img_at_tag _ Hwf').
    reflexivity.
Qed.

Lemma normalized_fragment_has_only_the_banner_witness :
  matchAll (normalize (render sampleMarkup)) imgRegex = [render_token bannerToken] /\
  startsWith (normalize (render sampleMarkup)) bannerHtml = true.
Proof.
  destruct (normalized_fragment_has_only_the_banner sampleMarkup eq_refl)
    as (_ & _ & _ & _ & H1 & H2 & _).
  exact (conj H2 H1).
Defined.

(** ** The content region *)

Module ArticleFacts.

Lemma matchHere_lits_only (t s : str) :
  matchHere (map Lit t) s = if startsWith s t then Some t else None.
Proof.
  rewrite <- (app_nil_r (map Lit t)), matchHere_lits.
  destruct (startsWith s t); [ | reflexivity ].
  simpl. now rewrite app_nil_r.
Qed.

(** [[\s\S]*?] before a literal text stops at the first occurrence of the
    text. *)
Lemma lazy_lits_some (t : str) : forall s m,
  lazyStar AnyChar (matchHere (map Lit t)) s = Some m ->
  exists x rest,
    m = x ++ t /\ s = x ++ t ++ rest /\
    (forall u v, x = u ++ v -> v <> [] -> startsWith (v ++ t ++ rest) t = false).
Proof.
  induction s as [|c s IH]; intros m; cbn [lazyStar]; rewrite matchHere_lits_only.
  - destruct (startsWith [] t) eqn:E; [ | discriminate ].
    intros H. injection H as <-. apply startsWith_iff in E as [rest E].
    exists [], rest. repeat split; try assumption.
    intros [|] [|]; simpl; congruence.
  - destruct (startsWith (c :: s) t) eqn:E.
    + intros H. injection H as <-. apply startsWith_iff in E as [rest E].
      exists [], rest. repeat split; try assumption.
      intros [|] [|]; simpl; congruence.
    + cbn [cls_mem].
      destruct (lazyStar AnyChar (matchHere (map Lit t)) s) as [m1|]; [ | discriminate ].
      simpl. intros H. injection H as <-.
      destruct (IH _ eq_refl) as (x & rest & -> & -> & Hfirst).
      exists (c :: x), rest. repeat split.
      intros [|d u] v Huv Hv; simpl in Huv.
      * subst v. exact E.
      * injection Huv as -> ->. now apply (Hfirst u).
Qed.

Lemma lazy_lits_none (t : str) : forall s,
  lazyStar AnyChar (matchHere (map Lit t)) s = None -> includes s t = false.
Proof.
  induction s as [|c s IH]; cbn [lazyStar includes]; rewrite matchHere_lits_only.
  - destruct (startsWith [] t); [ discriminate | reflexivity ].
  - destruct (startsWith (c :: s) t); [ discriminate | ].
    cbn [cls_mem orb].
    destruct (lazyStar AnyChar (matchHere (map Lit t)) s); [ discriminate | ].
    intros _. now apply IH.
Qed.

(** [indexOf] gives the first place where the text occurs. *)
Lemma indexOf_from_first (t rest : str) : forall (b : str) (i : Z),
  startsWith (t ++ rest) t = true ->
  (forall u v, b = u ++ v -> v <> [] -> startsWith (v ++ t ++ rest) t = false) ->
  indexOf_from i (b ++ t ++ rest) t = (i + Z.of_nat (length b))%Z.
Proof.
  induction b as [|c b IH]; intros i Hs Hfirst.
  - cbn [app length]. destruct (t ++ rest) eqn:E; cbn [indexOf_from];
      rewrite Hs; simpl; lia.
  - cbn [app indexOf_from].
    pose proof (Hfirst [] (c :: b) eq_refl ltac:(discriminate)) as H0.
    cbn [app] in H0. rewrite H0.
    rewrite IH; [ simpl length; lia | exact Hs | ].
    intros u v -> Hv. now apply (Hfirst (c :: u) v).
Qed.

(** The match of the region pattern: from the first [<article>] to the
    first [</article>] after it. *)
Lemma article_match (t b m a : str) :
  exec articleRegex t = Some (b, m, a) ->
  exists x,
    m = openTag ++ x ++ closeTag /\
    t = b ++ openTag ++ x ++ closeTag ++ a /\
    indexOf t openTag = Z.of_nat (length b) /\
    indexOf (x ++ closeTag ++ a) closeTag = Z.of_nat (length x).
Proof.
  intros Hex. destruct (exec_sound _ _ _ _ _ Hex) as [Ht Hm].
  pose proof (exec_leftmost _ _ _ _ _ Hex) as Hleft.
  unfold articleRegex, lits in Hm. rewrite matchHere_lits in Hm.
  destruct (startsWith (m ++ a) (lit "<article>")) eqn:E1; [ | discriminate ].
  apply startsWith_iff in E1 as [s1 E1]. rewrite E1 in Hm.
  rewrite skipn_app, skipn_all, Nat.sub_diag in Hm. cbn [skipn app] in Hm.
  change (matchHere (StarLazy AnyChar :: map Lit (lit "</article>")) s1)
    with (lazyStar AnyChar (matchHere (map Lit closeTag)) s1) in Hm.
  destruct (lazyStar AnyChar (matchHere (map Lit closeTag)) s1) as [m1|] eqn:Hl;
    [ | discriminate ].
  injection Hm as Hm.
  destruct (lazy_lits_some closeTag _ _ Hl) as (x & rest & -> & -> & Hfirst).
  fold openTag in E1. change (openTag ++ x ++ closeTag = m) in Hm.
  assert (Ha : rest = a).
  { rewrite <- Hm in E1. rewrite <- !app_assoc in E1.
    apply app_inv_head in E1. apply app_inv_head in E1.
    now apply app_inv_head in E1. }
  subst rest. exists x. split; [ now rewrite <- Hm | ].
  assert (Ht' : t = b ++ openTag ++ x ++ closeTag ++ a)
    by (rewrite Ht, <- Hm; now rewrite <- !app_assoc).
  split; [ exact Ht' | split ].
  - rewrite Ht'. unfold indexOf. rewrite indexOf_from_first.
    + lia.
    + apply startsWith_app.
    + intros u v Huv Hv.
      destruct (startsWith (v ++ openTag ++ x ++ closeTag ++ a) openTag) eqn:Es;
        [ exfalso | reflexivity ].
      pose proof (Hleft u v Huv Hv) as Hnone.
      rewrite <- Hm in Hnone. rewrite <- !app_assoc in Hnone.
      unfold articleRegex, lits in Hnone. rewrite matchHere_lits in Hnone.
      fold openTag in Hnone. rewrite Es in Hnone.
      change (matchHere ([StarLazy AnyChar] ++ map Lit (lit "</article>")))
        with (lazyStar AnyChar (matchHere (map Lit closeTag))) in Hnone.
      destruct (lazyStar AnyChar (matchHere (map Lit closeTag))
                  (skipn (length openTag) (v ++ openTag ++ x ++ closeTag ++ a)))
        eqn:El; [ discriminate | ].
      apply lazy_lits_none in El.
      assert (Hinc : includes
                (skipn (length openTag) (v ++ openTag ++ x ++ closeTag ++ a))
                closeTag = true).
      { destruct v as [|c v]; [ congruence | ].
        replace ((c :: v) ++ openTag ++ x ++ closeTag ++ a)
          with (((c :: v) ++ openTag ++ x) ++ closeTag ++ a)
          by now rewrite <- !app_assoc.
        rewrite skipn_app.
        replace (length openTag - length ((c :: v) ++ openTag ++ x))%nat with 0%nat
          by (symmetry; apply Nat.sub_0_le; rewrite !length_app; cbn [length]; lia).
        apply includes_app_r, includes_iff. now exists [], a. }
      congruence.
  - unfold indexOf. rewrite indexOf_from_first.
    + lia.
    + apply startsWith_app.
    + exact Hfirst.
Qed.

Lemma matchAll_loop_step r f s c m b a :
  exec r s = Some (b, c :: m, a) ->
  matchAll_loop (S f) s r = (c :: m) :: matchAll_loop f a r.
Proof. intros E. cbn [matchAll_loop]. now rewrite E. Qed.

Lemma regions_cons (t b m a : str) :
  exec articleRegex t = Some (b, m, a) -> regions t = m :: regions a.
Proof.
  intros E. unfold regions, matchAll.
  destruct (article_match _ _ _ _ E) as (x & Hm & Ht & _).
  rewrite Hm in E |- *. change (openTag ++ x ++ closeTag)
    with (60%N :: lit "article>" ++ x ++ closeTag) in E |- *.
  rewrite (matchAll_loop_step _ _ _ _ _ _ _ E). f_equal.
  apply matchAll_loop_fuel; [ | lia ].
  rewrite Ht, !length_app.
  change (length openTag) with 9%nat. lia.
Qed.

Lemma regions_nil (t : str) : exec articleRegex t = None -> regions t = [].
Proof. intros E. unfold regions, matchAll. cbn [matchAll_loop]. now rewrite E. Qed.

(** A template without a dollar sign is its own substitution. *)
Lemma getSubstitution_plain (m b a : str) : forall template,
  forallb (fun c => negb (c =? 36)%N) template = true ->
  getSubstitution m b a template = template.
Proof.
  induction template as [|c rest IH]; [ reflexivity | ].
  cbn [forallb getSubstitution]. intros H.
  apply andb_true_iff in H as [Hc Hrest].
  destruct (c =? 36)%N; [ discriminate | ]. now rewrite IH.
Qed.

Lemma newArticle_plain (html : str) :
  forallb (fun c => negb (c =? 36)%N) html = true ->
  forallb (fun c => negb (c =? 36)%N) (newArticle html) = true.
Proof.
  intros H. unfold newArticle. rewrite !forallb_app.
  repeat (apply andb_true_iff; split); try reflexivity. exact H.
Qed.

End ArticleFacts.

Import ArticleFacts.

(** ** Replacing the region in the template *)

(** C10, as the code has it.  In a template with two regions or more, the
    match is the first region: it starts at the first [<article>] and ends
    with the first [</article>] after it.  The Markdown script writes the
    template with the substitution in place of that region and the text
    before and after it unchanged, the later regions among it.  The DOCX
    script then removes the first citations block of the resulting
    document; where there is none, it too writes the text before and after
    the region unchanged. *)
Theorem only_first_region_is_replaced
  (marked_parse : str -> Exn str)
  (mammoth_convertToHtml : Options -> str -> Exn ConversionResult)
  (fs : FileSystem) (t : str) :
  file fs IndexPath = Some t ->
  writable fs IndexPath = true ->
  (2 <= length (regions t))%nat ->
  exists b x a,
    t = b ++ openTag ++ x ++ closeTag ++ a /\
    indexOf t openTag = Z.of_nat (length b) /\
    indexOf (x ++ closeTag ++ a) closeTag = Z.of_nat (length x) /\
    regions t = (openTag ++ x ++ closeTag) :: regions a /\
    regions a <> [] /\
    (forall md html,
       file fs SourcePath = Some md -> marked_parse md = Ok html ->
       let new := getSubstitution (openTag ++ x ++ closeTag) b a (newArticle html) in
       file (files_after (run (BuildManifesto.main marked_parse) fs)) IndexPath =
         Some (b ++ new ++ a) /\
       (noDollar html = true -> new = newArticle html)) /\
    (forall docx result,
       file fs SourcePath = Some docx ->
       mammoth_convertToHtml options docx = Ok result ->
       let new := getSubstitution (openTag ++ x ++ closeTag) b a
                    (newArticle (normalize (value result))) in
       let written :=
         file (files_after (run (BuildFromDocx.main mammoth_convertToHtml) fs))
              IndexPath in
       written = Some (replace (b ++ new ++ a) citationsRegex []) /\
       (test citationsRegex (b ++ new ++ a) = false ->
        written = Some (b ++ new ++ a)) /\
       (forall cb cm ca,
          exec citationsRegex (b ++ new ++ a) = Some (cb, cm, ca) ->
          b ++ new ++ a = cb ++ cm ++ ca /\ written = Some (cb ++ ca))).
Proof.
  intros Hidx Hw Htwo.
  destruct (exec articleRegex t) as [[[b m] a]|] eqn:E;
    [ | rewrite (regions_nil t E) in Htwo; simpl in Htwo; lia ].
  destruct (article_match _ _ _ _ E) as (x & Hm & Ht & Hopen & Hclose).
  pose proof (regions_cons _ _ _ _ E) as Hr.
  assert (Htest : test articleRegex t = true) by (unfold test; now rewrite E).
  exists b, x, a. rewrite <- Hm.
  split; [ exact Ht | split; [ exact Hopen | split; [ exact Hclose | ] ] ].
  split; [ exact Hr | split ].
  - intros Hnil. rewrite Hr, Hnil in Htwo. simpl in Htwo. lia.
  - split.
    + intros md html Hs Hmd new.
      rewrite (md_success marked_parse fs md html t Hs Hmd Hidx Htest Hw).
      cbn [files_after withIndex file path_eqb].
      rewrite (replace_frame t articleRegex (newArticle html) b m a E).
      split; [ reflexivity | ].
      intros Hd. apply getSubstitution_plain. now apply newArticle_plain.
    + intros docx result Hs Hc new written. subst written.
      rewrite (docx_success mammoth_convertToHtml fs docx result t Hs Hc Hidx Htest Hw).
      cbn [files_after withIndex file path_eqb].
      rewrite (replace_frame t articleRegex _ b m a E). fold new.
      split; [ reflexivity | split ].
      * unfold test. intros Hno.
        destruct (exec citationsRegex (b ++ new ++ a)) eqn:Ec; [ discriminate | ].
        now rewrite (replace_none _ _ _ Ec).
      * intros cb cm ca Ec. destruct (exec_sound _ _ _ _ _ Ec) as [Hsplit _].
        split; [ exact Hsplit | ].
        now rewrite (replace_frame _ _ _ _ _ _ Ec).
Qed.

Lemma only_first_region_is_replaced_witness :
  exists b x a, twoRegionsPage = b ++ openTag ++ x ++ closeTag ++ a /\
                regions a <> [].
Proof.
  destruct (only_first_region_is_replaced markedOnPrice mammothOnParagraph
              (fsOf (Some priceMarkdown) (Some twoRegionsPage) true) twoRegionsPage
              eq_refl eq_refl)
    as (b & x & a & Ht & _ & _ & _ & Hr & _).
  - vm_compute. lia.
  - now exists b, x, a.
Defined.

(** C10 as stated fails for the DOCX script: the citations block of the
    template, outside the region, is removed, so the text after the region
    is not what it was. *)
Lemma docx_changes_text_outside_the_region :
  let o := run (BuildFromDocx.main mammothOnParagraph)
               (fsOf (Some docxBytes) (Some twoRegionsPage) true) in
  (2 <= length (regions twoRegionsPage))%nat /\
  exec articleRegex twoRegionsPage =
    Some ([], lit "<article>a</article>", afterFirstRegion) /\
  file (files_after o) IndexPath =
    Some (newArticle (bannerHtml ++ lit "<p>x</p>") ++ lit "<article>b</article>") /\
  endsWith (newArticle (bannerHtml ++ lit "<p>x</p>") ++ lit "<article>b</article>")
           afterFirstRegion = false.
Proof.
  repeat split; vm_compute; try reflexivity; lia.
Qed.

(** Where C2 holds: for a template with a region and a rendering without a
    dollar sign, the Markdown script writes the rendering between the
    region's tags, and the text before and after the region as it was. *)
Lemma markdown_region_is_replaced
  (marked_parse : str -> Exn str) (fs : FileSystem) (md html t b m a : str) :
  file fs SourcePath = Some md ->
  marked_parse md = Ok html ->
  file fs IndexPath = Some t ->
  writable fs IndexPath = true ->
  exec articleRegex t = Some (b, m, a) ->
  noDollar html = true ->
  t = b ++ m ++ a /\
  file (files_after (run (BuildManifesto.main marked_parse) fs)) IndexPath =
    Some (b ++ (lit "<article>" ++ NL ++ html ++ NL ++ lit "</article>") ++ a).
Proof.
  intros Hs Hmd Hidx Hw E Hd.
  assert (Htest : test articleRegex t = true) by (unfold test; now rewrite E).
  rewrite (md_success marked_parse fs md html t Hs Hmd Hidx Htest Hw).
  cbn [files_after withIndex file path_eqb].
  rewrite (replace_frame t articleRegex (newArticle html) b m a E).
  rewrite (getSubstitution_plain m b a _ (newArticle_plain html Hd)).
  split; [ apply (exec_sound _ _ _ _ _ E) | reflexivity ].
Qed.

(** * Further properties of the scripts *)

(** ** Patterns of the shape [open[\s\S]*?close] *)

Module BlockFacts.

Lemma lazy_lits_found (t : str) (s : str) :
  includes s t = true -> lazyStar AnyChar (matchHere (map Lit t)) s <> None.
Proof.
  intros Hinc Hnone. apply lazy_lits_none in Hnone. congruence.
Qed.

(** The lazy star stops at the first occurrence. *)
Lemma lazy_lits_first (t rest : str) : forall x,
  (forall u v, x = u ++ v -> v <> [] -> startsWith (v ++ t ++ rest) t = false) ->
  lazyStar AnyChar (matchHere (map Lit t)) (x ++ t ++ rest) = Some (x ++ t).
Proof.
  induction x as [|c x IH]; intros Hfirst.
  - cbn [app]. destruct (t ++ rest) eqn:E; cbn [lazyStar];
      rewrite matchHere_lits_only, <- E, startsWith_app; reflexivity.
  - cbn [app lazyStar]. rewrite matchHere_lits_only.
    pose proof (Hfirst [] (c :: x) eq_refl ltac:(discriminate)) as H0.
    cbn [app] in H0. rewrite H0. cbn [cls_mem].
    rewrite IH; [ reflexivity | ].
    intros u v -> Hv. now apply (Hfirst (c :: u) v).
Qed.

Section Block.

Variables opn cls : str.

Lemma block_matchHere (s : str) :
  matchHere (blockRegex opn cls) s =
  if startsWith s opn
  then option_map (app opn)
         (lazyStar AnyChar (matchHere (map Lit cls)) (skipn (length opn) s))
  else None.
Proof. unfold blockRegex. now rewrite matchHere_lits. Qed.

(** A match is an opening text, then the shortest text up to a closing
    text. *)
Lemma block_sound (t b m a : str) :
  exec (blockRegex opn cls) t = Some (b, m, a) ->
  exists x,
    m = opn ++ x ++ cls /\
    t = b ++ opn ++ x ++ cls ++ a /\
    (forall u v, x = u ++ v -> v <> [] -> startsWith (v ++ cls ++ a) cls = false).
Proof.
  intros Hex. destruct (exec_sound _ _ _ _ _ Hex) as [Ht Hm].
  rewrite block_matchHere in Hm.
  destruct (startsWith (m ++ a) opn) eqn:E1; [ | discriminate ].
  apply startsWith_iff in E1 as [s1 E1]. rewrite E1 in Hm.
  rewrite skipn_app, skipn_all, Nat.sub_diag in Hm. cbn [skipn app] in Hm.
  destruct (lazyStar AnyChar (matchHere (map Lit cls)) s1) as [m1|] eqn:Hl;
    [ | discriminate ].
  cbn [option_map] in Hm. injection Hm as Hm.
  destruct (lazy_lits_some cls _ _ Hl) as (x & rest & -> & -> & Hfirst).
  assert (Ha : rest = a).
  { rewrite <- Hm in E1. rewrite <- !app_assoc in E1.
    apply app_inv_head in E1. apply app_inv_head in E1.
    now apply app_inv_head in E1. }
  subst rest. exists x. split; [ now rewrite <- Hm | ].
  split; [ | exact Hfirst ].
  rewrite Ht, <- Hm. now rewrite <- !app_assoc.
Qed.

(** Where an opening text has a closing text after it, there is a match. *)
Lemma block_matchHere_found (x a : str) :
  exists m, matchHere (blockRegex opn cls) (opn ++ x ++ cls ++ a) = Some m.
Proof.
  rewrite block_matchHere, startsWith_app.
  rewrite skipn_app, skipn_all, Nat.sub_diag. cbn [skipn app].
  destruct (lazyStar AnyChar (matchHere (map Lit cls)) (x ++ cls ++ a)) as [m|] eqn:E.
  - now exists (opn ++ m).
  - exfalso. revert E. apply lazy_lits_found.
    apply includes_iff. now exists x, a.
Qed.

Lemma block_complete (b x a : str) :
  exec (blockRegex opn cls) (b ++ opn ++ x ++ cls ++ a) <> None.
Proof.
  destruct (block_matchHere_found x a) as [m Hm].
  exact (exec_complete _ b _ m Hm).
Qed.

(** No opening text starts before the match. *)
Lemma block_leftmost (t b m a : str) :
  exec (blockRegex opn cls) t = Some (b, m, a) ->
  forall u v, b = u ++ v -> v <> [] -> startsWith (v ++ m ++ a) opn = false.
Proof.
  intros Hex u v Huv Hv.
  destruct (block_sound _ _ _ _ Hex) as (x & Hm & _ & _).
  pose proof (exec_leftmost _ _ _ _ _ Hex u v Huv Hv) as Hnone.
  rewrite block_matchHere in Hnone.
  destruct (startsWith (v ++ m ++ a) opn) eqn:Es; [ exfalso | reflexivity ].
  destruct (lazyStar AnyChar (matchHere (map Lit cls))
              (skipn (length opn) (v ++ m ++ a))) eqn:El; [ discriminate | ].
  revert El. apply lazy_lits_found.
  destruct v as [|c v]; [ congruence | ].
  rewrite Hm.
  replace ((c :: v) ++ (opn ++ x ++ cls) ++ a)
    with (((c :: v) ++ opn ++ x) ++ cls ++ a) by now rewrite <- !app_assoc.
  rewrite skipn_app.
  replace (length opn - length ((c :: v) ++ opn ++ x))%nat with 0%nat
    by (symmetry; apply Nat.sub_0_le; rewrite !length_app; cbn [length]; lia).
  apply includes_app_r, includes_iff. now exists [], a.
Qed.

(** The match is from the first opening text to the first closing text
    after it. *)
Lemma block_match (t b m a : str) :
  exec (blockRegex opn cls) t = Some (b, m, a) ->
  exists x,
    m = opn ++ x ++ cls /\
    t = b ++ opn ++ x ++ cls ++ a /\
    indexOf t opn = Z.of_nat (length b) /\
    indexOf (x ++ cls ++ a) cls = Z.of_nat (length x).
Proof.
  intros Hex. destruct (block_sound _ _ _ _ Hex) as (x & Hm & Ht & Hfirst).
  pose proof (block_leftmost _ _ _ _ Hex) as Hleft.
  exists x. split; [ exact Hm | split; [ exact Ht | split ] ].
  - rewrite Ht. unfold indexOf. rewrite indexOf_from_first.
    + lia.
    + apply startsWith_app.
    + intros u v Huv Hv. specialize (Hleft u v Huv Hv).
      rewrite Hm in Hleft. now rewrite <- !app_assoc in Hleft.
  - unfold indexOf. rewrite indexOf_from_first.
    + lia.
    + apply startsWith_app.
    + exact Hfirst.
Qed.

(** Text before an opening text in which none starts, and a first closing
    text: that is the match. *)
Lemma block_exec_at (b x a : str) :
  (forall u v, b = u ++ v -> v <> [] ->
     startsWith (v ++ opn ++ x ++ cls ++ a) opn = false) ->
  (forall u v, x = u ++ v -> v <> [] -> startsWith (v ++ cls ++ a) cls = false) ->
  exec (blockRegex opn cls) (b ++ opn ++ x ++ cls ++ a) =
  Some (b, opn ++ x ++ cls, a).
Proof.
  intros Hb Hx.
  assert (Hm : matchHere (blockRegex opn cls) (opn ++ x ++ cls ++ a) =
               Some (opn ++ x ++ cls)).
  { rewrite block_matchHere, startsWith_app.
    rewrite skipn_app, skipn_all, Nat.sub_diag. cbn [skipn app].
    now rewrite (lazy_lits_first cls a x Hx). }
  rewrite exec_skip.
  - rewrite (exec_here _ _ _ Hm). cbn [shift].
    rewrite app_nil_r. do 2 f_equal.
    replace (opn ++ x ++ cls ++ a) with ((opn ++ x ++ cls) ++ a)
      by now rewrite <- !app_assoc.
    now rewrite skipn_app, skipn_all, Nat.sub_diag.
  - intros u v Huv Hv. rewrite block_matchHere. now rewrite (Hb u v Huv Hv).
Qed.

End Block.

Lemma articleRegex_block : articleRegex = blockRegex openTag closeTag.
Proof. reflexivity. Qed.

Lemma citationsRegex_block : citationsRegex = blockRegex citationsOpenTag divCloseTag.
Proof. reflexivity. Qed.

End BlockFacts.

Import BlockFacts.

(** ** When the region is found, and what the citations removal deletes *)

(** The region test succeeds exactly on the templates that have
    [<article>] with [</article>] somewhere after it. *)
Theorem region_is_found_iff (t : str) :
  test articleRegex t = true <->
  exists b x a, t = b ++ lit "<article>" ++ x ++ lit "</article>" ++ a.
Proof.
  rewrite articleRegex_block. split.
  - intros H. apply test_true_iff in H as (b & m & a & E).
    destruct (block_sound _ _ _ _ _ _ E) as (x & _ & Ht & _).
    now exists b, x, a.
  - intros (b & x & a & ->). unfold test.
    pose proof (block_complete openTag closeTag b x a) as H.
    fold openTag closeTag.
    now destruct (exec (blockRegex openTag closeTag)
                    (b ++ openTag ++ x ++ closeTag ++ a)).
Qed.

(** [indexHtml.replace(citationsRegex, '')] on a document without
    [<div class="citations">] followed by [</div>] gives the document back;
    on any other document it deletes the text from the first
    [<div class="citations">] to the first [</div>] after it, both
    included, and nothing else. *)
Theorem citations_removal_deletes_first_block (d : str) :
  ((forall b x a, d <> b ++ citationsOpenTag ++ x ++ divCloseTag ++ a) ->
   replace d citationsRegex [] = d) /\
  (forall b0 x0 a0,
     d = b0 ++ citationsOpenTag ++ x0 ++ divCloseTag ++ a0 ->
     exists b x a,
       d = b ++ citationsOpenTag ++ x ++ divCloseTag ++ a /\
       indexOf d citationsOpenTag = Z.of_nat (length b) /\
       indexOf (x ++ divCloseTag ++ a) divCloseTag = Z.of_nat (length x) /\
       replace d citationsRegex [] = b ++ a).
Proof.
  rewrite citationsRegex_block. split.
  - intros Hno. unfold replace.
    destruct (exec (blockRegex citationsOpenTag divCloseTag) d)
      as [[[b m] a]|] eqn:E; [ | reflexivity ].
    destruct (block_sound _ _ _ _ _ _ E) as (x & _ & Ht & _).
    now destruct (Hno b x a).
  - intros b0 x0 a0 Hd.
    destruct (exec (blockRegex citationsOpenTag divCloseTag) d)
      as [[[b m] a]|] eqn:E.
    + destruct (block_match _ _ _ _ _ _ E) as (x & Hm & Ht & Ho & Hc).
      exists b, x, a. repeat split; try assumption.
      now rewrite (replace_frame _ _ _ _ _ _ E).
    + exfalso. rewrite Hd in E. revert E. apply block_complete.
Qed.

Lemma citations_removal_deletes_first_block_witness :
  exists b x a,
    twoRegionsPage = b ++ citationsOpenTag ++ x ++ divCloseTag ++ a /\
    replace twoRegionsPage citationsRegex [] = b ++ a.
Proof.
  destruct (proj2 (citations_removal_deletes_first_block twoRegionsPage)
              (lit "<article>a</article>") (lit "old") (lit "<article>b</article>")
              eq_refl)
    as (b & x & a & Hd & _ & _ & Hr).
  now exists b, x, a.
Defined.

(** ** The normaliser on any fragment *)

(** Step 3 leaves alone every fragment whose trimmed text does not end
    with [</ol>], whatever the second pattern of the source looks for, and
    every fragment without an [<ol>] tag. *)
Theorem footnote_step_leaves_other_fragments (h : str) :
  endsWith (trim h) (lit "</ol>") = false \/ lastIndexOf h (lit "<ol>") = (-1)%Z ->
  wrapFootnotes h = h.
Proof.
  intros H. unfold wrapFootnotes.
  destruct (endsWith (trim h) (lit "</ol>")) eqn:E.
  - destruct H as [H | H]; [ discriminate | ]. now rewrite H.
  - now rewrite (trailingOl_branch_is_dead h E).
Qed.

Lemma footnote_step_leaves_other_fragments_witness :
  wrapFootnotes (lit "<ol><li>footnote-1</li></ol><p>The end</p>") =
  lit "<ol><li>footnote-1</li></ol><p>The end</p>".
Proof.
  apply footnote_step_leaves_other_fragments. left. reflexivity.
Defined.

(** Step 3 deletes nothing: its result is the fragment, or the fragment
    with the opening text of the container put before one of its [<ol>]
    tags and the closing text after its end. *)
Theorem footnote_step_only_inserts (h : str) :
  wrapFootnotes h = h \/
  exists before list,
    h = before ++ lit "<ol>" ++ list /\
    wrapFootnotes h =
      before ++ citationsOpen ++ lit "<ol>" ++ list ++ citationsClose.
Proof.
  unfold wrapFootnotes.
  destruct (endsWith (trim h) (lit "</ol>")) eqn:Hend;
    [ | rewrite (trailingOl_branch_is_dead _ Hend); now left ].
  destruct (lastIndexOf_from_spec (lit "<ol>") ltac:(discriminate) h 0%Z ltac:(lia))
    as [[E _] | (n & E & Hn & Hs & _)];
    fold (lastIndexOf h (lit "<ol>")) in E; rewrite E.
  - now left.
  - rewrite Z.add_0_l.
    replace (Z.of_nat n =? -1)%Z with false by (symmetry; apply Z.eqb_neq; lia).
    cbn [negb]. rewrite (substring_from h n Hn), (substring_upto h n Hn).
    destruct (hasFootnoteMarker (skipn n h)); [ | now left ].
    right. apply startsWith_iff in Hs as [list Hl].
    exists (firstn n h), list. rewrite Hl. split; [ | now rewrite <- !app_assoc ].
    rewrite <- Hl. symmetry. apply firstn_skipn.
Qed.

(** No [<] in [w]: nothing that starts with [<] starts inside [w]. *)
Lemma no_tag_starts_inside (w s t : str) : forall k,
  forallb (fun c => negb (char_eqb c LT)) w = true ->
  (k < length w)%nat ->
  startsWith (skipn k (w ++ s)) (LT :: t) = false.
Proof.
  induction w as [|c w IH]; intros k Hw Hk; [ simpl in Hk; lia | ].
  simpl in Hw. apply andb_true_iff in Hw as [Hc Hw].
  destruct k as [|k].
  - cbn [skipn app startsWith]. now destruct (char_eqb c LT).
  - cbn [skipn app]. apply IH; [ exact Hw | simpl in Hk; lia ].
Qed.

(** An [<ol>] tag of a fragment that starts with the banner is after the
    banner. *)
Lemma ol_is_after_banner (s : str) (n : nat) :
  startsWith (skipn n (bannerHtml ++ s)) (lit "<ol>") = true ->
  (length bannerHtml <= n)%nat.
Proof.
  intros H. destruct (Nat.le_gt_cases (length bannerHtml) n) as [|Hlt]; [ assumption | ].
  exfalso. destruct n as [|n].
  - revert H. cbn [skipn]. unfold bannerHtml. cbn. discriminate.
  - revert H. change (bannerHtml ++ s) with (LT :: (skipn 1 bannerHtml ++ s)).
    cbn [skipn]. change (lit "<ol>") with (LT :: lit "ol>").
    rewrite no_tag_starts_inside; [ discriminate | reflexivity | ].
    change (n < length (skipn 1 bannerHtml))%nat. rewrite length_skipn. lia.
Qed.

(** Step 3 keeps a prefix inside which no [<ol>] tag starts. *)
Lemma wrapFootnotes_keeps_prefix (w : str) :
  (forall s n, startsWith (skipn n (w ++ s)) (lit "<ol>") = true ->
               (length w <= n)%nat) ->
  forall s, exists rest, wrapFootnotes (w ++ s) = w ++ rest.
Proof.
  intros Hw s. unfold wrapFootnotes.
  destruct (endsWith (trim (w ++ s)) (lit "</ol>")) eqn:Hend;
    [ | rewrite (trailingOl_branch_is_dead _ Hend); now exists s ].
  destruct (lastIndexOf_from_spec (lit "<ol>") ltac:(discriminate)
              (w ++ s) 0%Z ltac:(lia))
    as [[E _] | (n & E & Hn & Hs & _)];
    fold (lastIndexOf (w ++ s) (lit "<ol>")) in E; rewrite E.
  - now exists s.
  - rewrite Z.add_0_l.
    replace (Z.of_nat n =? -1)%Z with false by (symmetry; apply Z.eqb_neq; lia).
    cbn [negb]. rewrite (substring_from _ n Hn), (substring_upto _ n Hn).
    destruct (hasFootnoteMarker (skipn n (w ++ s))); [ | now exists s ].
    pose proof (Hw s n Hs) as Hlen.
    rewrite firstn_app, (firstn_all2 w) by exact Hlen.
    eexists. rewrite <- app_assoc. reflexivity.
Qed.

(** Whatever the converter gave, the normalised fragment starts with the
    banner element: steps 1 and 2 put it there and step 3 inserts only
    after it. *)
Theorem normalized_fragment_starts_with_banner (h : str) :
  exists rest, normalize h = bannerHtml ++ rest.
Proof.
  unfold normalize, normalizeImages, prependBanner.
  apply wrapFootnotes_keeps_prefix. exact ol_is_after_banner.
Qed.

(** ** The image steps on well-formed markup *)

Lemma sentinel_is_image (k : token) : isSentinelImg k = true -> isImg k = true.
Proof.
  destruct k as [t|body]; [ discriminate | ].
  cbn [isSentinelImg isImg]. intros H. apply andb_true_iff in H. tauto.
Qed.

Lemma keep_img_after_sentinel (ks : list token) :
  keep isImg (keep isSentinelImg ks) = keep isImg ks.
Proof.
  unfold keep. induction ks as [|k ks IH]; [ reflexivity | ].
  cbn [filter]. destruct (isSentinelImg k) eqn:Es; cbn [negb].
  - rewrite (sentinel_is_image k Es). cbn [negb]. exact IH.
  - cbn [filter]. now rewrite IH.
Qed.

(** On well-formed markup each removal deletes the tags it looks for,
    whole, and keeps every other token as it is and where it is: the
    second line deletes the tags whose name starts with [img], the first
    those of them that have [class="remove-me"] after the name. *)
Theorem image_steps_delete_whole_tags (ks : list token) :
  wellFormed ks = true ->
  removeSentinelImages (render ks) =
    render (filter (fun k => negb (isSentinelImg k)) ks) /\
  removeAllImages (render ks) = render (filter (fun k => negb (isImg k)) ks).
Proof.
  intros Hwf. split.
  - exact (removeSentinelImages_render ks Hwf).
  - exact (removeAllImages_render ks Hwf).
Qed.

Lemma image_steps_delete_whole_tags_witness :
  removeAllImages (render sampleMarkup) =
  render (filter (fun k => negb (isImg k)) sampleMarkup).
Proof.
  exact (proj2 (image_steps_delete_whole_tags sampleMarkup eq_refl)).
Defined.

(** On well-formed markup the first removal changes nothing in the end:
    the two removals one after the other give what the second gives
    alone. *)
Theorem sentinel_removal_is_subsumed (ks : list token) :
  wellFormed ks = true ->
  removeAllImages (removeSentinelImages (render ks)) = removeAllImages (render ks).
Proof.
  intros Hwf. rewrite (removeSentinelImages_render ks Hwf).
  rewrite (removeAllImages_render _ (wellFormed_keep isSentinelImg ks Hwf)).
  rewrite (removeAllImages_render ks Hwf).
  now rewrite keep_img_after_sentinel.
Qed.

Lemma sentinel_removal_is_subsumed_witness :
  removeAllImages (removeSentinelImages (render sampleMarkup)) =
  removeAllImages (render sampleMarkup).
Proof.
  apply (sentinel_removal_is_subsumed sampleMarkup). reflexivity.
Defined.

(** ** Every run of the scripts *)

Ltac markdown_cases marked_parse fs :=
  let md := fresh "md" in let html := fresh "html" in let t := fresh "t" in
  let e := fresh "e" in
  let Hs := fresh "Hs" in let Hm := fresh "Hm" in let Hi := fresh "Hi" in
  let Ht := fresh "Ht" in let Hw := fresh "Hw" in
  destruct (file fs SourcePath) as [md|] eqn:Hs;
    [ destruct (marked_parse md) as [html|e] eqn:Hm;
      [ destruct (file fs IndexPath) as [t|] eqn:Hi;
        [ destruct (test articleRegex t) eqn:Ht;
          [ destruct (writable fs IndexPath) eqn:Hw;
            [ rewrite (md_success marked_parse fs md html t Hs Hm Hi Ht Hw)
            | rewrite (md_write_fails marked_parse fs md html t Hs Hm Hi Ht Hw) ]
          | rewrite (md_no_region marked_parse fs md html t Hs Hm Hi Ht) ]
        | rewrite (md_index_missing marked_parse fs md html Hs Hm Hi) ]
      | rewrite (md_conversion_fails marked_parse fs md e Hs Hm) ]
    | rewrite (md_source_missing marked_parse fs Hs) ].

Ltac docx_cases convert fs :=
  let docx := fresh "docx" in let result := fresh "result" in let t := fresh "t" in
  let e := fresh "e" in
  let Hs := fresh "Hs" in let Hm := fresh "Hm" in let Hi := fresh "Hi" in
  let Ht := fresh "Ht" in let Hw := fresh "Hw" in
  destruct (file fs SourcePath) as [docx|] eqn:Hs;
    [ destruct (convert options docx) as [result|e] eqn:Hm;
      [ destruct (file fs IndexPath) as [t|] eqn:Hi;
        [ destruct (test articleRegex t) eqn:Ht;
          [ destruct (writable fs IndexPath) eqn:Hw;
            [ rewrite (docx_success convert fs docx result t Hs Hm Hi Ht Hw)
            | rewrite (docx_write_fails convert fs docx result t Hs Hm Hi Ht Hw) ]
          | rewrite (docx_no_region convert fs docx result t Hs Hm Hi Ht) ]
        | rewrite (docx_index_missing convert fs docx result Hs Hm Hi) ];
        destruct result as [v [|w ws]]; unfold warningsLog; cbn [messages app]
      | rewrite (docx_conversion_fails convert fs docx e Hs Hm) ]
    | rewrite (docx_source_missing convert fs Hs) ].

(** An existential over the steps of a run that the case at hand
    excludes. *)
Ltac no_such_run :=
  let H := fresh in
  intros (? & ? & ? & H); decompose [and] H; congruence.

(** The Markdown script ends with status 1 in one case only: source read
    and rendered, template read, no region in it.  Every other run ends
    with status 0, failed or not.  The template is written exactly when
    the source is read and rendered, the template has a region and can be
    written; the last line [Successfully updated ...] is printed in that
    case and in no other. *)
Theorem markdown_run_outcomes (marked_parse : str -> Exn str) (fs : FileSystem) :
  let o := run (BuildManifesto.main marked_parse) fs in
  (exitCode o = 0%Z \/ exitCode o = 1%Z) /\
  (exitCode o = 1%Z <->
   exists md html t,
     file fs SourcePath = Some md /\ marked_parse md = Ok html /\
     file fs IndexPath = Some t /\ test articleRegex t = false) /\
  (wrote IndexPath o = true <->
   exists md html t,
     file fs SourcePath = Some md /\ marked_parse md = Ok html /\
     file fs IndexPath = Some t /\ test articleRegex t = true /\
     writable fs IndexPath = true) /\
  (In (ConsoleLog markdownDone) (trace o) <-> wrote IndexPath o = true).
Proof.
  intros o. subst o. markdown_cases marked_parse fs;
    cbn [exitCode trace wrote existsb path_eqb orb].
  - split; [ now left | ]. split; [ | split ].
    + split; [ discriminate | no_such_run ].
    + split; [ intros _; now exists md, html, t | reflexivity ].
    + split; [ reflexivity | intros _; right; right; now left ].
  - split; [ now left | ]. split; [ | split ].
    + split; [ discriminate | no_such_run ].
    + split; [ discriminate | no_such_run ].
    + split; [ intros [H | [H | []]]; discriminate | discriminate ].
  - split; [ now right | ]. split; [ | split ].
    + split; [ intros _; now exists md, html, t | reflexivity ].
    + split; [ discriminate | no_such_run ].
    + split; [ intros [H | [H | []]]; discriminate | discriminate ].
  - split; [ now left | ]. split; [ | split ].
    + split; [ discriminate | no_such_run ].
    + split; [ discriminate | no_such_run ].
    + split; [ intros [H | [H | []]]; discriminate | discriminate ].
  - split; [ now left | ]. split; [ | split ].
    + split; [ discriminate | no_such_run ].
    + split; [ discriminate | no_such_run ].
    + split; [ intros [H | [H | []]]; discriminate | discriminate ].
  - split; [ now left | ]. split; [ | split ].
    + split; [ discriminate | no_such_run ].
    + split; [ discriminate | no_such_run ].
    + split; [ intros [H | []]; discriminate | discriminate ].
Qed.

Ltac settle_side :=
  first
    [ reflexivity
    | discriminate
    | no_such_run
    | (intros _; reflexivity)
    | (intros _; do 3 eexists; repeat split; eassumption)
    | (let H := fresh in intros H; simpl in H; intuition discriminate)
    | (intros _; simpl; auto 10) ].

(** The DOCX script ends with status 0 exactly when it has written the
    template, and with status 1 otherwise.  It writes the template exactly
    when the source exists, mammoth resolves, the template has a region and
    can be written; the last line [Successfully updated ...] is printed in
    that case and in no other. *)
Theorem docx_run_outcomes
  (mammoth_convertToHtml : Options -> str -> Exn ConversionResult)
  (fs : FileSystem) :
  let o := run (BuildFromDocx.main mammoth_convertToHtml) fs in
  (exitCode o = 0%Z \/ exitCode o = 1%Z) /\
  (exitCode o = 0%Z <-> wrote IndexPath o = true) /\
  (wrote IndexPath o = true <->
   exists docx result t,
     file fs SourcePath = Some docx /\
     mammoth_convertToHtml options docx = Ok result /\
     file fs IndexPath = Some t /\ test articleRegex t = true /\
     writable fs IndexPath = true) /\
  (In (ConsoleLog docxDone) (trace o) <-> wrote IndexPath o = true).
Proof.
  intros o. subst o. docx_cases mammoth_convertToHtml fs;
    cbn [exitCode trace wrote existsb path_eqb orb];
    (split; [ first [ now left | now right ] | ]);
    (split; [ split; settle_side | ]);
    (split; split; settle_side).
Qed.

(** Neither script touches the source document or any permission, neither
    writes anything but the template, and that once at most; after the run
    the template holds what was written, or what it held before when
    nothing was. *)
Theorem scripts_write_the_template_only
  (marked_parse : str -> Exn str)
  (mammoth_convertToHtml : Options -> str -> Exn ConversionResult)
  (fs : FileSystem) :
  let unchanged_but_template o :=
    file (files_after o) SourcePath = file fs SourcePath /\
    writable (files_after o) = writable fs /\
    writesTo SourcePath o = [] /\
    (length (writesTo IndexPath o) <= 1)%nat /\
    file (files_after o) IndexPath =
      match writesTo IndexPath o with
      | [] => file fs IndexPath
      | content :: _ => Some content
      end in
  unchanged_but_template (run (BuildManifesto.main marked_parse) fs) /\
  unchanged_but_template (run (BuildFromDocx.main mammoth_convertToHtml) fs).
Proof.
  intros P. subst P. cbv beta. split.
  - markdown_cases marked_parse fs;
      cbn [files_after trace writesTo flat_map path_eqb app length withIndex file
           writable];
      repeat split; auto.
  - docx_cases mammoth_convertToHtml fs;
      cbn [files_after trace writesTo flat_map path_eqb app length withIndex file
           writable];
      repeat split; auto.
Qed.

(** ** Running the Markdown script again *)

Lemma markdown_region_is_replaced_witness :
  file (files_after (run (BuildManifesto.main markedOnTitle)
                       (fsOf (Some titleMarkdown) (Some page) true))) IndexPath =
  Some (lit "<html><body>" ++
        (lit "<article>" ++ NL ++ titleHtml ++ NL ++ lit "</article>") ++
        lit "</body></html>").
Proof.
  exact (proj2 (markdown_region_is_replaced markedOnTitle
                  (fsOf (Some titleMarkdown) (Some page) true)
                  titleMarkdown titleHtml page
                  (lit "<html><body>") (lit "<article>old</article>")
                  (lit "</body></html>")
                  eq_refl eq_refl eq_refl eq_refl eq_refl eq_refl)).
Defined.

Lemma startsWith_app_long (s1 s2 t : str) :
  (length t <= length s1)%nat -> startsWith (s1 ++ s2) t = startsWith s1 t.
Proof.
  revert s1; induction t as [|y t IH]; intros s1 H; [ reflexivity | ].
  destruct s1 as [|x s1]; [ simpl in H; lia | ].
  cbn [app startsWith]. rewrite IH; [ reflexivity | simpl in H; lia ].
Qed.

Lemma startsWith_includes (s t : str) :
  startsWith s t = true -> includes s t = true.
Proof. intros H. destruct s; cbn [includes]; now rewrite H. Qed.

Lemma no_char_in (c : char) (t u v : str) :
  forallb (fun d => negb (char_eqb d c)) t = true -> t <> u ++ c :: v.
Proof.
  intros Ht E. rewrite E, forallb_app in Ht.
  apply andb_true_iff in Ht as [_ Ht]. simpl in Ht.
  now rewrite char_eqb_refl in Ht.
Qed.

(** A text without [c] that occurs around a [c] occurs before it or after
    it. *)
Lemma includes_around_char (c : char) (t x y : str) :
  forallb (fun d => negb (char_eqb d c)) t = true ->
  includes (x ++ c :: y) t = true ->
  includes x t = true \/ includes y t = true.
Proof.
  intros Ht H. apply includes_iff in H as (u & v & H).
  rewrite app_assoc in H.
  apply app_eq_app in H as [l [[Hx Hv] | [Hut Hy]]].
  - left. apply includes_iff. exists u, l. now rewrite Hx, <- app_assoc.
  - destruct l as [|d l].
    + left. apply includes_iff. exists u, []. now rewrite app_nil_r in *.
    + injection Hy as <- Hy.
      apply app_eq_app in Hut as [l2 [[Hu Hl] | [Hx Ht']]].
      * destruct l2 as [|d l2].
        -- exfalso. simpl in Hl. apply (no_char_in c t [] l Ht). now rewrite <- Hl.
        -- injection Hl as <- Hl. right. apply includes_iff.
           exists l2, v. now rewrite Hy, Hl, <- app_assoc.
      * exfalso. exact (no_char_in c t l2 l Ht Ht').
Qed.

(** A rendering without [</article>] has none around it either. *)
Lemma no_close_in_new_article (html : str) :
  includes html closeTag = false ->
  includes ((NL ++ html ++ NL) ++ lit "</article") closeTag = false.
Proof.
  intros H.
  destruct (includes ((NL ++ html ++ NL) ++ lit "</article") closeTag) eqn:E;
    [ exfalso | reflexivity ].
  rewrite <- !app_assoc in E.
  apply (includes_around_char 10%N closeTag []) in E; [ | reflexivity ].
  destruct E as [E | E]; [ discriminate | ].
  apply (includes_around_char 10%N closeTag html) in E; [ | reflexivity ].
  destruct E as [E | E]; [ congruence | discriminate ].
Qed.

(** The region that a run wrote is the region the next run finds. *)
Lemma written_region_is_found (t b m a html : str) :
  exec articleRegex t = Some (b, m, a) ->
  includes html closeTag = false ->
  exec articleRegex (b ++ newArticle html ++ a) = Some (b, newArticle html, a).
Proof.
  intros E Hno. rewrite articleRegex_block in *.
  destruct (block_sound _ _ _ _ _ _ E) as (x & Hm & _ & _).
  pose proof (block_leftmost _ _ _ _ _ _ E) as Hleft.
  change (newArticle html) with (openTag ++ NL ++ html ++ NL ++ closeTag).
  replace (b ++ (openTag ++ NL ++ html ++ NL ++ closeTag) ++ a)
    with (b ++ openTag ++ (NL ++ html ++ NL) ++ closeTag ++ a)
    by now rewrite <- !app_assoc.
  replace (openTag ++ NL ++ html ++ NL ++ closeTag)
    with (openTag ++ (NL ++ html ++ NL) ++ closeTag)
    by now rewrite <- !app_assoc.
  apply block_exec_at.
  - intros u v Huv Hv. specialize (Hleft u v Huv Hv).
    rewrite Hm in Hleft.
    assert (Hlen : (length openTag <= length (v ++ openTag))%nat)
      by (rewrite length_app; lia).
    replace (v ++ (openTag ++ x ++ closeTag) ++ a)
      with ((v ++ openTag) ++ (x ++ closeTag) ++ a) in Hleft
      by now rewrite <- !app_assoc.
    rewrite (startsWith_app_long _ _ _ Hlen) in Hleft.
    replace (v ++ openTag ++ (NL ++ html ++ NL) ++ closeTag ++ a)
      with ((v ++ openTag) ++ (NL ++ html ++ NL) ++ closeTag ++ a)
      by now rewrite <- !app_assoc.
    now rewrite (startsWith_app_long _ _ _ Hlen).
  - intros u v Huv Hv.
    destruct (startsWith (v ++ closeTag ++ a) closeTag) eqn:Es; [ exfalso | reflexivity ].
    change closeTag with (lit "</article" ++ [62%N]) in Es at 1.
    replace (v ++ (lit "</article" ++ [62%N]) ++ a)
      with ((v ++ lit "</article") ++ [62%N] ++ a) in Es
      by now rewrite <- !app_assoc.
    rewrite startsWith_app_long in Es.
    + pose proof (no_close_in_new_article html Hno) as Hinc.
      rewrite Huv in Hinc. rewrite <- app_assoc in Hinc.
      assert (Hyes : includes (u ++ v ++ lit "</article") closeTag = true).
      { apply includes_app_r. now apply startsWith_includes. }
      congruence.
    + destruct v as [|c v]; [ congruence | ].
      rewrite length_app. simpl. lia.
Qed.

(** After a run that wrote the template, a second run of the Markdown
    script on the same source writes the same template again, when the
    rendering has no dollar sign and no [</article>]. *)
Theorem markdown_rerun_writes_the_same
  (marked_parse : str -> Exn str) (fs : FileSystem) (md html t : str) :
  file fs SourcePath = Some md ->
  marked_parse md = Ok html ->
  file fs IndexPath = Some t ->
  test articleRegex t = true ->
  writable fs IndexPath = true ->
  noDollar html = true ->
  includes html (lit "</article>") = false ->
  let o1 := run (BuildManifesto.main marked_parse) fs in
  let o2 := run (BuildManifesto.main marked_parse) (files_after o1) in
  file (files_after o2) IndexPath = file (files_after o1) IndexPath /\
  wrote IndexPath o2 = true /\
  exitCode o2 = 0%Z.
Proof.
  intros Hs Hm Hi Ht Hw Hd Hno o1 o2. subst o1 o2.
  apply test_true_iff in Ht as (b & m & a & E).
  assert (Ht : test articleRegex t = true) by (unfold test; now rewrite E).
  rewrite (md_success marked_parse fs md html t Hs Hm Hi Ht Hw).
  cbn [files_after].
  rewrite (replace_frame t articleRegex (newArticle html) b m a E).
  rewrite (getSubstitution_plain m b a _ (newArticle_plain html Hd)).
  set (t1 := b ++ newArticle html ++ a).
  pose proof (written_region_is_found t b m a html E Hno) as E1. fold t1 in E1.
  assert (Ht1 : test articleRegex t1 = true) by (unfold test; now rewrite E1).
  rewrite (md_success marked_parse (withIndex fs t1) md html t1 Hs Hm eq_refl Ht1 Hw).
  cbn [files_after withIndex file path_eqb].
  rewrite (replace_frame t1 articleRegex (newArticle html) b _ a E1).
  rewrite (getSubstitution_plain _ b a _ (newArticle_plain html Hd)).
  repeat split.
Qed.

Lemma markdown_rerun_writes_the_same_witness :
  let o1 := run (BuildManifesto.main markedOnTitle)
                (fsOf (Some titleMarkdown) (Some page) true) in
  let o2 := run (BuildManifesto.main markedOnTitle) (files_after o1) in
  file (files_after o2) IndexPath = file (files_after o1) IndexPath /\
  wrote IndexPath o2 = true /\
  exitCode o2 = 0%Z.
Proof.
  exact (markdown_rerun_writes_the_same markedOnTitle
           (fsOf (Some titleMarkdown) (Some page) true)
           titleMarkdown titleHtml page
           eq_refl eq_refl eq_refl eq_refl eq_refl eq_refl eq_refl).
Defined.

(** ** Running the DOCX script again *)

(** After a run that wrote the template, a second run of the DOCX script
    on the same document writes the same template again, when the
    normalised fragment has no dollar sign and no [</article>] and the
    document with the fragment in it has no citations block. *)
Theorem docx_rerun_writes_the_same
  (mammoth_convertToHtml : Options -> str -> Exn ConversionResult)
  (fs : FileSystem) (docx t : str) (result : ConversionResult) :
  file fs SourcePath = Some docx ->
  mammoth_convertToHtml options docx = Ok result ->
  file fs IndexPath = Some t ->
  test articleRegex t = true ->
  writable fs IndexPath = true ->
  let fragment := normalize (value result) in
  noDollar fragment = true ->
  includes fragment (lit "</article>") = false ->
  test citationsRegex (replace t articleRegex (newArticle fragment)) = false ->
  let o1 := run (BuildFromDocx.main mammoth_convertToHtml) fs in
  let o2 := run (BuildFromDocx.main mammoth_convertToHtml) (files_after o1) in
  file (files_after o2) IndexPath = file (files_after o1) IndexPath /\
  wrote IndexPath o2 = true /\
  exitCode o2 = 0%Z.
Proof.
  intros Hs Hm Hi Ht Hw fragment Hd Hno Hcit o1 o2. subst o1 o2.
  apply test_true_iff in Ht as (b & m & a & E).
  assert (Ht : test articleRegex t = true) by (unfold test; now rewrite E).
  rewrite (docx_success mammoth_convertToHtml fs docx result t Hs Hm Hi Ht Hw).
  cbn [files_after]. fold fragment.
  rewrite (replace_frame t articleRegex (newArticle fragment) b m a E) in Hcit |- *.
  rewrite (getSubstitution_plain m b a _ (newArticle_plain fragment Hd)) in Hcit |- *.
  set (t1 := b ++ newArticle fragment ++ a) in *.
  assert (Hkeep : replace t1 citationsRegex [] = t1).
  { unfold test in Hcit. unfold replace.
    now destruct (exec citationsRegex t1) as [[[? ?] ?]|]. }
  rewrite Hkeep.
  pose proof (written_region_is_found t b m a fragment E Hno) as E1. fold t1 in E1.
  assert (Ht1 : test articleRegex t1 = true) by (unfold test; now rewrite E1).
  rewrite (docx_success mammoth_convertToHtml (withIndex fs t1) docx result t1
             Hs Hm eq_refl Ht1 Hw).
  cbn [files_after withIndex file path_eqb]. fold fragment.
  rewrite (replace_frame t1 articleRegex (newArticle fragment) b _ a E1).
  rewrite (getSubstitution_plain _ b a _ (newArticle_plain fragment Hd)).
  fold t1. rewrite Hkeep.
  split; [ reflexivity | split; [ | reflexivity ] ].
  destruct result as [v [|w ws]]; reflexivity.
Qed.

Lemma docx_rerun_writes_the_same_witness :
  let o1 := run (BuildFromDocx.main mammothOnParagraph)
                (fsOf (Some docxBytes) (Some page) true) in
  let o2 := run (BuildFromDocx.main mammothOnParagraph) (files_after o1) in
  file (files_after o2) IndexPath = file (files_after o1) IndexPath /\
  wrote IndexPath o2 = true /\
  exitCode o2 = 0%Z.
Proof.
  exact (docx_rerun_writes_the_same mammothOnParagraph
           (fsOf (Some docxBytes) (Some page) true)
           docxBytes page (mkResult (lit "<p>x</p>") [])
           eq_refl eq_refl eq_refl eq_refl eq_refl eq_refl eq_refl eq_refl).
Defined.

(** ** The normalised fragment of well-formed markup *)

(** On well-formed markup the normaliser gives the banner, then every
    token that is not an image tag, as it is and in order; when it wraps,
    the opening text of the container comes before one of the [<ol>] tags
    and the closing text at the end. *)
Theorem normalized_markup_keeps_other_tokens (ks : list token) :
  wellFormed ks = true ->
  let kept := filter (fun k => negb (isImg k)) ks in
  normalize (render ks) = bannerHtml ++ render kept \/
  exists p q,
    kept = p ++ Tag (lit "ol") :: q /\
    normalize (render ks) =
      bannerHtml ++ render p ++ citationsOpen ++
      render (Tag (lit "ol") :: q) ++ citationsClose.
Proof.
  intros Hwf kept. subst kept. fold (keep isImg ks).
  unfold normalize, normalizeImages, prependBanner.
  rewrite (removeSentinelImages_render ks Hwf).
  pose proof (wellFormed_keep isSentinelImg ks Hwf) as Hwf1.
  rewrite (removeAllImages_render _ Hwf1), keep_img_after_sentinel.
  pose proof (wellFormed_keep isImg ks Hwf) as Hwf2.
  set (ks2 := keep isImg ks) in *.
  change (bannerHtml ++ render ks2) with (render (bannerToken :: Chars NL :: ks2)).
  assert (Hwf3 : wellFormed (bannerToken :: Chars NL :: ks2) = true).
  { change (wellFormed (bannerToken :: Chars NL :: ks2))
      with (wf_token bannerToken && (wf_token (Chars NL) && wellFormed ks2)).
    now rewrite Hwf2. }
  destruct (wrapFootnotes_render _ Hwf3) as [E | (p & q & Hks & E)]; rewrite E.
  - now left.
  - right. destruct p as [|p1 [|p2 p]]; simpl in Hks.
    + injection Hks as Hk _. discriminate.
    + injection Hks as _ Hk _. discriminate.
    + injection Hks as <- <- Hks. exists p, q. split; [ exact Hks | ].
      rewrite !render_app.
      change (render (bannerToken :: Chars NL :: p)) with (bannerHtml ++ render p).
      rewrite citationsOpen_tokens, citationsClose_tokens.
      now rewrite <- !app_assoc.
Qed.

Lemma normalized_markup_keeps_other_tokens_witness :
  let kept := filter (fun k => negb (isImg k)) sampleMarkup in
  normalize (render sampleMarkup) = bannerHtml ++ render kept \/
  exists p q,
    kept = p ++ Tag (lit "ol") :: q /\
    normalize (render sampleMarkup) =
      bannerHtml ++ render p ++ citationsOpen ++
      render (Tag (lit "ol") :: q) ++ citationsClose.
Proof.
  exact (normalized_markup_keeps_other_tokens sampleMarkup eq_refl).
Defined.

(** ** Conversion warnings *)

(** When mammoth resolves with warnings, the DOCX script prints them
    before it reads the template: they are in the trace whether the run
    then writes the template or fails on it. *)
Theorem docx_warnings_are_printed
  (mammoth_convertToHtml : Options -> str -> Exn ConversionResult)
  (fs : FileSystem) (docx : str) (result : ConversionResult) :
  file fs SourcePath = Some docx ->
  mammoth_convertToHtml options docx = Ok result ->
  messages result <> [] ->
  let o := run (BuildFromDocx.main mammoth_convertToHtml) fs in
  exists later,
    trace o =
      ConversionStarted ::
      ConsoleLog (TextAndList (lit "Conversion warnings:") (messages result)) ::
      later.
Proof.
  intros Hs Hm Hne o. subst o.
  destruct (file fs IndexPath) as [t|] eqn:Hi;
    [ destruct (test articleRegex t) eqn:Ht;
      [ destruct (writable fs IndexPath) eqn:Hw;
        [ rewrite (docx_success mammoth_convertToHtml fs docx result t Hs Hm Hi Ht Hw)
        | rewrite (docx_write_fails mammoth_convertToHtml fs docx result t
                     Hs Hm Hi Ht Hw) ]
      | rewrite (docx_no_region mammoth_convertToHtml fs docx result t Hs Hm Hi Ht) ]
    | rewrite (docx_index_missing mammoth_convertToHtml fs docx result Hs Hm Hi) ];
    destruct result as [v [|w ws]]; try (now destruct Hne);
    unfold warningsLog; cbn [messages app trace]; eexists; reflexivity.
Qed.

Lemma docx_warnings_are_printed_witness :
  exists later,
    trace (run (BuildFromDocx.main mammothWithWarning)
             (fsOf (Some docxBytes) (Some pageWithoutRegion) true)) =
      ConversionStarted ::
      ConsoleLog (TextAndList (lit "Conversion warnings:")
                    [lit "Unrecognised paragraph style"]) ::
      later.
Proof.
  apply (docx_warnings_are_printed mammothWithWarning
           (fsOf (Some docxBytes) (Some pageWithoutRegion) true) docxBytes
           (mkResult (lit "<p>x</p>") [lit "Unrecognised paragraph style"])
           eq_refl eq_refl).
  discriminate.
Defined.
